(** * MetadataWatcher: the change dispatcher of [src/main.ts]

    A shallow embedding of the class [MetadataWatcherPlugin]: the baseline
    cache [lastMetadataValues], the seeding routine
    [updateLastMetadataValues], the two passes [processHeaderGroups] and
    [processCommandGroups] of [onMetadataChanged], and the text rewrite
    [replaceHeaderWithMetadataValue].

    The Obsidian application the plugin runs in (vault, metadata cache,
    command registry) and the JavaScript runtime's regular-expression
    engine are external: they are gathered in a record [Host], and the
    calls the plugin makes to them are recorded in a trace.  One handler
    invocation is modelled as running to completion: interleavings of two
    handlers at an [await] are outside the model. *)

From Stdlib Require Import ZArith NArith QArith Qcanon Ascii String List Lia.
From stdpp Require Import base option list gmap pretty sorting.

Local Open Scope N_scope.

(* ===================================================================== *)
(** ** JavaScript strings and values *)
(* ===================================================================== *)

(** A JavaScript string is a sequence of UTF-16 code units. *)
Abbreviation jsstring := (list N).

(** [str "abc"] is the JavaScript string with the code units of an ASCII
    literal. *)
Definition str (s : string) : jsstring :=
  N_of_ascii <$> list_ascii_of_string s.

(** ECMAScript [LineTerminator]: LF, CR, U+2028 and U+2029.  They delimit
    the lines seen by [^], [$] (flag [m]) and are what [.] refuses. *)
Definition isLineTerminator (c : N) : bool :=
  (c =? 10) || (c =? 13) || (c =? 8232) || (c =? 8233).

(** ECMAScript [SyntaxCharacter]: the characters with a meaning of their
    own in a pattern, [^ $ \ . * + ? ( ) [ ] { } |]. *)
Definition isSyntaxCharacter (c : N) : bool :=
  bool_decide (c ∈ str "^$\.*+?()[]{}|").

Definition isDecimalDigit (c : N) : bool := (48 <=? c) && (c <=? 57).

(** A JavaScript number: a finite double is the rational it denotes, and
    there are the two infinities.  The zeros are one number (they are [===]
    and print alike).  [NaN] has no term of its own: it is falsy, and a
    falsy value is only ever tested for truthiness, never compared, stored
    or printed, so that it is represented by zero. *)
Inductive number :=
  | Finite (q : Qc)
  | Infinite (negative : bool).

#[global] Instance number_eq_dec : EqDecision number.
Proof. solve_decision. Defined.

(** The values a front-matter field can hold.  An object or array is its
    reference: [!==] compares identities, and its printed form is the
    host's business. *)
Inductive value :=
  | VUndefined
  | VNull
  | VBool (b : bool)
  | VNum (n : number)
  | VStr (s : jsstring)
  | VObj (ref : positive).

#[global] Instance value_eq_dec : EqDecision value.
Proof. solve_decision. Defined.

(** [ToBoolean]. *)
Definition truthy (v : value) : bool :=
  match v with
  | VUndefined | VNull => false
  | VBool b => b
  | VNum (Finite q) => negb (bool_decide (q = 0%Qc))
  | VNum (Infinite _) => true
  | VStr s => negb (bool_decide (s = []))
  | VObj _ => true
  end.

(** [a === b] on the values above. *)
Definition strictEquals (a b : value) : bool := bool_decide (a = b).

(** A metadata snapshot, and the baseline cache, are JavaScript objects used
    as maps from property names to values; [o[k]] is [undefined] for a
    missing key.  Only own properties are represented: a field named after
    a member of [Object.prototype] is outside the model (no cache key is,
    since every key contains a hyphen). *)
Definition getProp (o : gmap jsstring value) (k : jsstring) : value :=
  default VUndefined (o !! k).

(* ===================================================================== *)
(** ** Settings *)
(* ===================================================================== *)

Record HeaderGroup := {
  hg_watchedField : jsstring;
  header : jsstring;
  hg_active : bool
}.

Record CommandGroup := {
  cg_watchedField : jsstring;
  command : jsstring;
  cg_active : bool
}.

(** What both kinds of group share, written [group.watchedField] and
    [group.active] in the source. *)
Class WatchRule (G : Type) := {
  watchedField : G → jsstring;
  active : G → bool
}.

#[global] Instance HeaderGroup_rule : WatchRule HeaderGroup :=
  {| watchedField := hg_watchedField; active := hg_active |}.

#[global] Instance CommandGroup_rule : WatchRule CommandGroup :=
  {| watchedField := cg_watchedField; active := cg_active |}.

(** An element of [[...headerGroups, ...commandGroups]]. *)
#[global] Instance sum_rule `{WatchRule A, WatchRule B} : WatchRule (A + B) :=
  {| watchedField := λ g, match g with inl a => watchedField a | inr b => watchedField b end;
     active := λ g, match g with inl a => active a | inr b => active b end |}.

Record Settings := {
  headerGroups : list HeaderGroup;
  commandGroups : list CommandGroup
}.

Record TFile := { path : jsstring }.

(* ===================================================================== *)
(** ** The host and the state *)
(* ===================================================================== *)

(** A call made by the plugin to the application.  [EvCommand f id] is
    [executeCommandById(id)], called by a command group watching [f]. *)
Inductive Event :=
  | EvRead (p : jsstring)
  | EvModify (p content : jsstring)
  | EvCommand (field id : jsstring).

#[global] Instance Event_eq_dec : EqDecision Event.
Proof. solve_decision. Defined.

Record State := {
  lastMetadataValues : gmap jsstring value;   (* the baseline cache *)
  vault : gmap jsstring jsstring;             (* document path -> text *)
  calls : list Event                          (* calls made so far *)
}.

Record Host := {
  (** [app.metadataCache.getFileCache(file)?.frontmatter] *)
  frontmatter : jsstring → option (gmap jsstring value);
  (** [content.replace(new RegExp(source, "m"), replacement)];
      [None] when the constructor throws a [SyntaxError]. *)
  regexpReplace : jsstring → jsstring → jsstring → option jsstring;
  (** does [vault.modify] reject for this path? *)
  modifyFails : jsstring → bool;
  (** does [executeCommandById] throw for this identifier? *)
  commandFails : jsstring → bool;
  (** [String(n)] of a number, as the runtime prints a double *)
  numberToString : number → jsstring;
  (** [String(o)] of the object behind a reference; [None] when it throws
      a [TypeError] (no callable [toString] or [valueOf], or one that
      throws) *)
  objectToString : positive → option jsstring
}.

(** How a handler ends: its promise is fulfilled, or rejected because an
    exception was thrown. *)
Inductive Completion (A : Type) :=
  | Normal (a : A)
  | Throw.
Arguments Normal {A} a.
Arguments Throw {A}.

(** A computation reads and updates the state, and returns or throws. *)
Definition Eff (A : Type) : Type := State → Completion A * State.

Definition ret {A} (a : A) : Eff A := λ s, (Normal a, s).

Definition bind {A B} (m : Eff A) (k : A → Eff B) : Eff B :=
  λ s, match m s with
       | (Normal a, s') => k a s'
       | (Throw, s') => (Throw, s')
       end.

Declare Scope eff_scope.
Delimit Scope eff_scope with eff.
Notation "'let!' x ':=' m 'in' k" := (bind m (λ x, k))
  (at level 10, x name, m at level 100, k at level 200) : eff_scope.
Notation "m ';;;' k" := (bind m (λ _, k))
  (at level 100, k at level 200, right associativity) : eff_scope.
Local Open Scope eff_scope.

(** [for (const x of xs) body]. *)
Fixpoint forOf {X} (xs : list X) (body : X → Eff unit) : Eff unit :=
  match xs with
  | [] => ret tt
  | x :: xs' => body x ;;; forOf xs' body
  end.

Definition logCall (e : Event) (s : State) : State :=
  {| lastMetadataValues := lastMetadataValues s;
     vault := vault s;
     calls := calls s ++ [e] |}.

(** [this.lastMetadataValues[k]] *)
Definition getLast (k : jsstring) : Eff value :=
  λ s, (Normal (getProp (lastMetadataValues s) k), s).

(** [this.lastMetadataValues[k] = v] *)
Definition setLast (k : jsstring) (v : value) : Eff unit :=
  λ s, (Normal tt,
        {| lastMetadataValues := <[k := v]> (lastMetadataValues s);
           vault := vault s;
           calls := calls s |}).

(** [await this.app.vault.read(file)]: rejects for a file that is gone. *)
Definition vaultRead (file : TFile) : Eff jsstring :=
  λ s, match vault s !! path file with
       | Some content => (Normal content, logCall (EvRead (path file)) s)
       | None => (Throw, logCall (EvRead (path file)) s)
       end.

(** [await this.app.vault.modify(file, data)]: replaces the whole text. *)
Definition vaultModify (host : Host) (file : TFile) (data : jsstring) : Eff unit :=
  λ s, let s' := logCall (EvModify (path file) data) s in
       if modifyFails host (path file) then (Throw, s')
       else (Normal tt,
             {| lastMetadataValues := lastMetadataValues s';
                vault := <[path file := data]> (vault s');
                calls := calls s' |}).

(** [this.app.commands.executeCommandById(id)], called for a group
    watching [field]. *)
Definition executeCommandById (host : Host) (field id : jsstring) : Eff unit :=
  λ s, let s' := logCall (EvCommand field id) s in
       if commandFails host id then (Throw, s') else (Normal tt, s').

Definition orThrow {A} (o : option A) : Eff A :=
  λ s, match o with Some a => (Normal a, s) | None => (Throw, s) end.

(** [String(v)], as a template literal does it; [None] when it throws. *)
Definition toString (host : Host) (v : value) : option jsstring :=
  match v with
  | VUndefined => Some (str "undefined")
  | VNull => Some (str "null")
  | VBool true => Some (str "true")
  | VBool false => Some (str "false")
  | VNum n => Some (numberToString host n)
  | VStr s => Some s
  | VObj r => objectToString host r
  end.

(* ===================================================================== *)
(** ** The plugin *)
(* ===================================================================== *)

(** The key [`${file.path}-${group.watchedField}`]. *)
Definition cacheKey (p field : jsstring) : jsstring :=
  p ++ str "-" ++ field.

Section Plugin.
Context (host : Host) (settings : Settings).

Definition seedGroup `{WatchRule G} (file : TFile)
    (metadata : gmap jsstring value) (group : G) : Eff unit :=
  if active group && truthy (getProp metadata (watchedField group)) then
    setLast (cacheKey (path file) (watchedField group))
            (getProp metadata (watchedField group))
  else ret tt.

Definition updateLastMetadataValues (file : TFile) : Eff unit :=
  match frontmatter host (path file) with
  | Some metadata =>
      forOf ((inl <$> headerGroups settings) ++ (inr <$> commandGroups settings))
            (seedGroup file metadata)
  | None => ret tt
  end.

Definition initializeLastMetadataValues (files : list TFile) : Eff unit :=
  forOf files updateLastMetadataValues.

Definition onFileOpen (file : TFile) : Eff unit :=
  updateLastMetadataValues file.

Definition replaceHeaderWithMetadataValue
    (content header : jsstring) (valueToInsert : value) : option jsstring :=
  let headerRegex := str "^(" ++ header ++ str ")(.*)$" in
  match toString host valueToInsert with
  | Some text =>
      let replacementText := str "$1 " ++ text in
      regexpReplace host headerRegex content replacementText
  | None => None
  end.

(** One iteration of the loop of [processHeaderGroups]. *)
Definition headerGroupStep (file : TFile) (metadata : gmap jsstring value)
    (group : HeaderGroup) : Eff unit :=
  if active group && truthy (getProp metadata (watchedField group)) then
    let currentValue := getProp metadata (watchedField group) in
    let! previousValue := getLast (cacheKey (path file) (watchedField group)) in
    if negb (strictEquals currentValue previousValue) then
      let! fileContent := vaultRead file in
      let! updatedContent :=
        orThrow (replaceHeaderWithMetadataValue fileContent (header group) currentValue) in
      vaultModify host file updatedContent ;;;
      setLast (cacheKey (path file) (watchedField group)) currentValue
    else ret tt
  else ret tt.

Definition processHeaderGroups (file : TFile) (metadata : gmap jsstring value) : Eff unit :=
  forOf (headerGroups settings) (headerGroupStep file metadata).

(** One iteration of the loop of [processCommandGroups]. *)
Definition commandGroupStep (file : TFile) (metadata : gmap jsstring value)
    (group : CommandGroup) : Eff unit :=
  if active group && truthy (getProp metadata (watchedField group)) then
    let currentValue := getProp metadata (watchedField group) in
    let! previousValue := getLast (cacheKey (path file) (watchedField group)) in
    (if negb (strictEquals currentValue previousValue) then
       if negb (strictEquals previousValue VUndefined) then
         executeCommandById host (watchedField group) (command group)
       else ret tt
     else ret tt) ;;;
    setLast (cacheKey (path file) (watchedField group)) currentValue
  else ret tt.

Definition processCommandGroups (file : TFile) (metadata : gmap jsstring value) : Eff unit :=
  forOf (commandGroups settings) (commandGroupStep file metadata).

Definition onMetadataChanged (file : TFile) : Eff unit :=
  match frontmatter host (path file) with
  | Some metadata =>
      processHeaderGroups file metadata ;;;
      processCommandGroups file metadata
  | None => ret tt
  end.

End Plugin.

(* ===================================================================== *)
(** ** The regular-expression engine on header patterns

    [replaceHeaderWithMetadataValue] hands the runtime a pattern: the
    header in a group, anchored at a line start by [^], then a group taking
    any characters, then [$].  What the runtime does with it is fixed here
    for headers made of ordinary characters and dots: every other header
    is left to the host. *)
(* ===================================================================== *)

(** Headers whose characters are pattern characters or [.]: no group,
    alternative, quantifier, class or escape can arise from them. *)
Definition inFragment (header : jsstring) : bool :=
  forallb (λ c, (c =? 46) || negb (isSyntaxCharacter c)) header.

(** Headers that are matched as fixed text within one line. *)
Definition plainHeader (header : jsstring) : bool :=
  forallb (λ c, negb (isSyntaxCharacter c) && negb (isLineTerminator c)) header.

(** Match the atoms of the header at the start of [s]: a dot takes any
    code unit but a line terminator, another character takes itself.
    Returns the text matched and what follows it. *)
Fixpoint matchHeader (header s : jsstring) : option (jsstring * jsstring) :=
  match header, s with
  | [], _ => Some ([], s)
  | _ :: _, [] => None
  | a :: header', c :: s' =>
      if (if a =? 46 then negb (isLineTerminator c) else a =? c) then
        match matchHeader header' s' with
        | Some (m, rest) => Some (c :: m, rest)
        | None => None
        end
      else None
  end.

(** The greedy second group followed by [$]: everything up to the next
    line terminator or the end. *)
Fixpoint restOfLine (s : jsstring) : jsstring * jsstring :=
  match s with
  | [] => ([], [])
  | c :: s' =>
      if isLineTerminator c then ([], s)
      else let (l, r) := restOfLine s' in (c :: l, r)
  end.

Record Match := {
  before : jsstring;      (* the text in front of the match *)
  capture1 : jsstring;    (* group 1, the header as matched *)
  capture2 : jsstring;    (* group 2, the rest of the line *)
  after : jsstring        (* the text behind the match *)
}.

Definition shift (c : N) (m : Match) : Match :=
  {| before := c :: before m; capture1 := capture1 m;
     capture2 := capture2 m; after := after m |}.

(** The first match of the header pattern with flag [m], trying the start
    positions from left to right; [lineStart] tells whether [^] holds at
    the current position. *)
Fixpoint execHeaderRegex (header : jsstring) (lineStart : bool) (s : jsstring)
    : option Match :=
  match (if lineStart then matchHeader header s else None) with
  | Some (m, rest) =>
      let (l, r) := restOfLine rest in
      Some {| before := []; capture1 := m; capture2 := l; after := r |}
  | None =>
      match s with
      | [] => None
      | c :: s' => shift c <$> execHeaderRegex header (isLineTerminator c) s'
      end
  end.

Definition prepend (l : jsstring) (m : Match) : Match :=
  {| before := l ++ before m; capture1 := capture1 m;
     capture2 := capture2 m; after := after m |}.

Definition digitValue (c : N) : nat := N.to_nat (c - 48).

(** The capture a [$n] or [$nn] refers to, if the index is in range. *)
Definition captureRef (captures : list jsstring) (index : nat) : option jsstring :=
  match index with
  | O => None
  | S i => captures !! i
  end.

(** ECMAScript [GetSubstitution] without named captures: expands [$$],
    [$&], [$`], [$'], [$n] and [$nn] in a replacement template. *)
Fixpoint getSubstitution (matched front back : jsstring)
    (captures : list jsstring) (template : jsstring) : jsstring :=
  match template with
  | [] => []
  | c :: t1 =>
      if negb (c =? 36) then c :: getSubstitution matched front back captures t1
      else
        match t1 with
        | [] => [c]
        | d :: t2 =>
            if d =? 36 then 36 :: getSubstitution matched front back captures t2
            else if d =? 38 then matched ++ getSubstitution matched front back captures t2
            else if d =? 96 then front ++ getSubstitution matched front back captures t2
            else if d =? 39 then back ++ getSubstitution matched front back captures t2
            else if isDecimalDigit d then
              let one :=
                match captureRef captures (digitValue d) with
                | Some cap => cap ++ getSubstitution matched front back captures t2
                | None => c :: d :: getSubstitution matched front back captures t2
                end in
              match t2 with
              | e :: t3 =>
                  if isDecimalDigit e
                     && (10 * digitValue d + digitValue e <=? length captures)%nat then
                    match captureRef captures (10 * digitValue d + digitValue e) with
                    | Some cap => cap ++ getSubstitution matched front back captures t3
                    | None => c :: d :: e :: getSubstitution matched front back captures t3
                    end
                  else one
              | [] => one
              end
            else c :: getSubstitution matched front back captures t1
        end
  end.

(** [content.replace(headerRegex, replacement)] for the header pattern. *)
Definition replaceFirst (header content replacement : jsstring) : jsstring :=
  match execHeaderRegex header true content with
  | None => content
  | Some m =>
      before m
      ++ getSubstitution (capture1 m ++ capture2 m) (before m) (after m)
           [capture1 m; capture2 m] replacement
      ++ after m
  end.

(** A host whose engine follows ECMAScript on the patterns built from the
    headers of the fragment. *)
Definition conforming (host : Host) : Prop :=
  ∀ header content replacement,
    inFragment header = true →
    regexpReplace host (str "^(" ++ header ++ str ")(.*)$") content replacement
    = Some (replaceFirst header content replacement).

(** *** A reference host *)

(** Recover the header from the source of a header pattern. *)
Definition headerOfSource (source : jsstring) : option jsstring :=
  match source with
  | 94 :: 40 :: rest =>
      let n := (length rest - 6)%nat in
      if bool_decide (drop n rest = str ")(.*)$") then Some (take n rest) else None
  | _ => None
  end.

(** The engine of the reference host: defined on the fragment, and
    refusing every other pattern. *)
Definition referenceReplace (source content replacement : jsstring) : option jsstring :=
  match headerOfSource source with
  | Some h =>
      if inFragment h then Some (replaceFirst h content replacement) else None
  | None => None
  end.

(** How the reference host prints a number: the decimal form of a safe
    integer and the names of the infinities, as every runtime does.  It
    does not know the shortest decimal form of the other doubles, and
    gives them the text of a mark that no runtime prints. *)
Definition printNumber (n : number) : jsstring :=
  match n with
  | Infinite false => str "Infinity"
  | Infinite true => str "-Infinity"
  | Finite q =>
      if bool_decide (Qden q = 1%positive)
         && (Z.abs (Qnum q) <=? 9007199254740991)%Z
      then str (pretty (Qnum q))
      else str "?"
  end.

(** A host in which nothing fails, serving the given front matter. *)
Definition referenceHost (fm : jsstring → option (gmap jsstring value)) : Host :=
  {| frontmatter := fm;
     regexpReplace := referenceReplace;
     modifyFails := λ _, false;
     commandFails := λ _, false;
     numberToString := printNumber;
     objectToString := λ _, Some (str "[object Object]") |}.

(* ===================================================================== *)
(** ** Notions used in the statements *)
(* ===================================================================== *)

(** What one iteration may do to the cache: nothing, or store the current
    value of the field of an active group under the group's key. *)
Definition cacheStep `{WatchRule G} (file : TFile) (metadata : gmap jsstring value)
    (g : G) (s s' : State) : Prop :=
  lastMetadataValues s' = lastMetadataValues s
  ∨ (active g = true
     ∧ truthy (getProp metadata (watchedField g)) = true
     ∧ lastMetadataValues s'
       = <[cacheKey (path file) (watchedField g) := getProp metadata (watchedField g)]>
           (lastMetadataValues s)).


(** A text as lines: [unlines earlier ++ l] is the text whose lines are
    those of [earlier], each with the terminator that ends it, and then the
    text [l]. *)
Definition terminatorFree (l : jsstring) : Prop :=
  Forall (λ c, isLineTerminator c = false) l.

Definition unlines (ls : list (jsstring * N)) : jsstring :=
  concat ((λ p, p.1 ++ [p.2]) <$> ls).

(** A position of a text where a line starts: the start of the text, or
    just behind a line terminator.  [pre] is the text in front of the
    position. *)
Definition lineStart (pre : jsstring) : Prop :=
  pre = [] ∨ ∃ pre' t, pre = pre' ++ [t] ∧ isLineTerminator t = true.

(** The header pattern matches at no line start of the text. *)
Definition matchesNowhere (header content : jsstring) : Prop :=
  ∀ pre post, content = pre ++ post → lineStart pre → matchHeader header post = None.

(** A terminated line that does not start with the header. *)
Definition otherLine (header : jsstring) (p : jsstring * N) : Prop :=
  terminatorFree p.1 ∧ isLineTerminator p.2 = true ∧ ¬ header `prefix_of` p.1.

(** Cut a text into its terminated lines and its last line. *)
Fixpoint splitLines (s : jsstring) : list (jsstring * N) * jsstring :=
  match s with
  | [] => ([], [])
  | c :: s' =>
      let (ls, last) := splitLines s' in
      if isLineTerminator c then (([], c) :: ls, last)
      else match ls with
           | [] => ([], c :: last)
           | (l, t) :: ls' => ((c :: l, t) :: ls', last)
           end
  end.

(** The settings without the groups whose watched field is the empty
    string. *)
Definition hasField `{WatchRule G} (g : G) : bool :=
  negb (bool_decide (watchedField g = [])).

Definition dropEmptyField (settings : Settings) : Settings :=
  {| headerGroups := List.filter hasField (headerGroups settings);
     commandGroups := List.filter hasField (commandGroups settings) |}.

(** The cache holds nothing, or the current value, for field [f] of the
    document. *)
Definition unseenOrCurrent (file : TFile) (metadata : gmap jsstring value)
    (f : jsstring) (s : State) : Prop :=
  lastMetadataValues s !! cacheKey (path file) f = None
  ∨ lastMetadataValues s !! cacheKey (path file) f = Some (getProp metadata f).

(** From [s] to [s'] no command group watching [f] has called a command,
    and the cache entry of [f] is still unseen or current. *)
Definition quietFor (file : TFile) (metadata : gmap jsstring value)
    (f : jsstring) (s s' : State) : Prop :=
  unseenOrCurrent file metadata f s →
  unseenOrCurrent file metadata f s'
  ∧ ∃ evs, calls s' = calls s ++ evs ∧ ∀ id, EvCommand f id ∉ evs.

(** The cache entry under key [k] is the same in [s] and [s']. *)
Definition keepsEntry (k : jsstring) (s s' : State) : Prop :=
  lastMetadataValues s' !! k = lastMetadataValues s !! k.

(** Nothing was called and no document changed between [s] and [s']. *)
Definition silent (s s' : State) : Prop :=
  calls s' = calls s ∧ vault s' = vault s.

(** The state after header group [g] has reacted in [s]: the value is
    stored, the document holds the text [updated], and a read and a write
    of the document were made. *)
Definition rewritten (file : TFile) (metadata : gmap jsstring value)
    (g : HeaderGroup) (updated : jsstring) (s : State) : State :=
  {| lastMetadataValues :=
       <[cacheKey (path file) (watchedField g) := getProp metadata (watchedField g)]>
         (lastMetadataValues s);
     vault := <[path file := updated]> (vault s);
     calls := calls s ++ [EvRead (path file); EvModify (path file) updated] |}.

(** The cache entry of [f], once current, stays current. *)
Definition staysCurrent (file : TFile) (metadata : gmap jsstring value)
    (f : jsstring) (s s' : State) : Prop :=
  lastMetadataValues s !! cacheKey (path file) f = Some (getProp metadata f) →
  lastMetadataValues s' !! cacheKey (path file) f = Some (getProp metadata f).

(** Every active group whose watched field is truthy in the snapshot has
    the snapshot's value as its cache entry. *)
Definition baselined (settings : Settings) (file : TFile)
    (metadata : gmap jsstring value) (s : State) : Prop :=
  (∀ g : HeaderGroup, g ∈ headerGroups settings → active g = true →
     truthy (getProp metadata (watchedField g)) = true →
     lastMetadataValues s !! cacheKey (path file) (watchedField g)
     = Some (getProp metadata (watchedField g)))
  ∧ (∀ g : CommandGroup, g ∈ commandGroups settings → active g = true →
       truthy (getProp metadata (watchedField g)) = true →
       lastMetadataValues s !! cacheKey (path file) (watchedField g)
       = Some (getProp metadata (watchedField g))).

(** The identifiers of the commands called on behalf of field [f], in the
    order of the calls. *)
Definition commandsFor (f : jsstring) (evs : list Event) : list jsstring :=
  flat_map (λ e, match e with
                 | EvCommand f' id => if bool_decide (f' = f) then [id] else []
                 | _ => []
                 end) evs.

(** The calls of the header pass for the texts it writes: each write comes
    right after a read of the same document. *)
Definition rewriteCalls (p : jsstring) (texts : list jsstring) : list Event :=
  flat_map (λ text, [EvRead p; EvModify p text]) texts.

Definition isCommandCall (e : Event) : Prop :=
  match e with EvCommand _ _ => True | _ => False end.

(** A call that reads or writes a document concerns document [p]. *)
Definition concerns (p : jsstring) (e : Event) : Prop :=
  match e with
  | EvRead q | EvModify q _ => q = p
  | EvCommand _ _ => True
  end.

(** Every stored baseline is a truthy value. *)
Definition truthyCache (s : State) : Prop :=
  ∀ k v, lastMetadataValues s !! k = Some v → truthy v = true.

(** From [s] to [s'] the cache has only gained or overwritten entries, with
    truthy values if it held only truthy ones. *)
Definition cacheGrows (s s' : State) : Prop :=
  (∀ k, is_Some (lastMetadataValues s !! k) → is_Some (lastMetadataValues s' !! k))
  ∧ (truthyCache s → truthyCache s').

(** From [s] to [s'] only document [p] and the cache keys of [p] may have
    changed, and every call to the vault was for [p]. *)
Definition localTo (p : jsstring) (s s' : State) : Prop :=
  (∀ q, q ≠ p → vault s' !! q = vault s !! q)
  ∧ (∀ k, (∀ f, k ≠ cacheKey p f) →
          lastMetadataValues s' !! k = lastMetadataValues s !! k)
  ∧ ∃ evs, calls s' = calls s ++ evs ∧ Forall (concerns p) evs.

(** The vault after the texts [texts] have been written to document [p],
    one after the other: the document holds the last of them. *)
Definition written (p : jsstring) (texts : list jsstring)
    (v : gmap jsstring jsstring) : gmap jsstring jsstring :=
  match last texts with
  | Some text => <[p := text]> v
  | None => v
  end.

(** A property of the state that holds in [s'] if it held in [s]. *)
Definition keeps (P : State → Prop) (s s' : State) : Prop := P s → P s'.

(** The field names watched by the groups of the settings. *)
Definition watchedFields (settings : Settings) : list jsstring :=
  (watchedField <$> headerGroups settings) ++ (watchedField <$> commandGroups settings).

(** From [s] to [s'] no command was called on behalf of field [f]. *)
Definition noCommandFor (f : jsstring) (s s' : State) : Prop :=
  ∃ evs, calls s' = calls s ++ evs ∧ ∀ id, EvCommand f id ∉ evs.

(** The settings without the groups that are switched off. *)
Definition dropInactive (settings : Settings) : Settings :=
  {| headerGroups := List.filter active (headerGroups settings);
     commandGroups := List.filter active (commandGroups settings) |}.

(* ===================================================================== *)
(** ** The command picker ([CommandSuggestModal]) *)
(* ===================================================================== *)

(** A command of the registry, as [app.commands.listCommands()] lists it. *)
Record Command := {
  cmd_id : jsstring;
  cmd_name : jsstring
}.

(** An element of the result of [getSuggestions]. *)
Record Suggestion := {
  item : Command;
  score : Z
}.

(** What the picker takes from the JavaScript runtime:
    [String.prototype.normalize("NFD")] and [toLowerCase]. *)
Record Runtime := {
  normalizeNFD : jsstring → jsstring;
  toLowerCase : jsstring → jsstring
}.

(** The combining marks U+0300 to U+036F. *)
Definition isCombiningMark (c : N) : bool := (768 <=? c) && (c <=? 879).

(** [text.normalize("NFD")], then the removal of every combining mark
    (the class from U+0300 to U+036F, replaced by the empty string), then
    [toLowerCase()]. *)
Definition normalizeText (rt : Runtime) (text : jsstring) : jsstring :=
  toLowerCase rt (List.filter (λ c, negb (isCombiningMark c)) (normalizeNFD rt text)).

Definition MAX_SAFE_INTEGER : Z := 9007199254740991.

(** The first position at which [query] occurs in [text], if any. *)
Fixpoint firstOccurrence (text query : jsstring) : option nat :=
  if bool_decide (query `prefix_of` text) then Some O
  else match text with
       | [] => None
       | _ :: text' => S <$> firstOccurrence text' query
       end.

(** [text.indexOf(query)]: the position of the first occurrence, or -1. *)
Definition indexOf (text query : jsstring) : Z :=
  match firstOccurrence text query with
  | Some i => Z.of_nat i
  | None => (-1)%Z
  end.

Definition fuzzyMatch (text query : jsstring) : Z :=
  let index := indexOf text query in
  if (-1 <? index)%Z then index else MAX_SAFE_INTEGER.

(** [Array.prototype.sort(compare)]: the sort is stable, and for a
    comparator that is a consistent ordering, as a difference of scores is,
    its result is the one of any stable sort.  Written here as an insertion
    of each element in front of the sorted rest. *)
Fixpoint insertSorted {A} (compare : A → A → Z) (x : A) (l : list A) : list A :=
  match l with
  | [] => [x]
  | y :: ys =>
      if (compare x y <=? 0)%Z then x :: y :: ys
      else y :: insertSorted compare x ys
  end.

Definition sortWith {A} (compare : A → A → Z) (l : list A) : list A :=
  foldr (insertSorted compare) [] l.

(** The [map] step of [getSuggestions]. *)
Definition scoreItems (rt : Runtime) (items : list Command) (normalizedQuery : jsstring)
    : list Suggestion :=
  (λ i, {| item := i;
           score := fuzzyMatch (normalizeText rt (cmd_name i)) normalizedQuery |})
    <$> items.

(** [getSuggestions(query)], for the commands [items] of the registry. *)
Definition getSuggestions (rt : Runtime) (items : list Command) (query : jsstring)
    : list Suggestion :=
  let normalizedQuery := normalizeText rt query in
  sortWith (λ a b, (score a - score b)%Z)
    (List.filter (λ m, (-1 <? score m)%Z)
       (scoreItems rt items normalizedQuery)).

(** The class [\s]: white space and line terminators. *)
Definition isSpaceClass (c : N) : bool :=
  bool_decide (c ∈ [9; 10; 11; 12; 13; 32; 160; 5760; 8232; 8233; 8239; 8287;
                    12288; 65279])
  || ((8192 <=? c) && (c <=? 8202)).

(** The class of [escapeRegExp]. *)
Definition isEscapedClass (c : N) : bool :=
  bool_decide (c ∈ str "-[]{}()*+?.,\^$|#") || isSpaceClass c.

(** [text.replace(/[-[\]{}()*+?.,\\^$|#\s]/g, "\\$&")]: a backslash in
    front of each character of the class. *)
Definition escapeRegExp (text : jsstring) : jsstring :=
  flat_map (λ c, if isEscapedClass c then [92; c] else [c]) text.

(** The text a pattern matches when it is made only of pattern characters
    and of identity escapes of characters that are no letter, digit or
    underscore; [None] for every other pattern. *)
Definition isWordCharacter (c : N) : bool :=
  ((48 <=? c) && (c <=? 57)) || ((65 <=? c) && (c <=? 90))
  || ((97 <=? c) && (c <=? 122)) || (c =? 95).

Definition isIdentityEscape (c : N) : bool :=
  isSyntaxCharacter c || isSpaceClass c || ((c <? 128) && negb (isWordCharacter c)).

Fixpoint literalOfPattern (pattern : jsstring) : option jsstring :=
  match pattern with
  | [] => Some []
  | c :: rest =>
      if c =? 92 then
        match rest with
        | d :: rest' =>
            if isIdentityEscape d then cons d <$> literalOfPattern rest' else None
        | [] => None
        end
      else if isSyntaxCharacter c then None
      else cons c <$> literalOfPattern rest
  end.

(* ===================================================================== *)
(** ** The settings tab: adding groups *)
(* ===================================================================== *)

(** The click handler of "Add header group": [headerGroups.push] of a
    blank, active group.  (Saving the settings and drawing the tab again
    are not represented.) *)
Definition addHeaderGroup (settings : Settings) : Settings :=
  {| headerGroups := headerGroups settings
                     ++ [{| hg_watchedField := []; header := []; hg_active := true |}];
     commandGroups := commandGroups settings |}.

(** The click handler of "Add command group". *)
Definition addCommandGroup (settings : Settings) : Settings :=
  {| headerGroups := headerGroups settings;
     commandGroups := commandGroups settings
                      ++ [{| cg_watchedField := []; command := []; cg_active := true |}] |}.

(* ===================================================================== *)
(** ** Sample data *)
(* ===================================================================== *)

Module Sample.

Definition note : TFile := {| path := str "notes/a.md" |}.

Definition emptyState : State :=
  {| lastMetadataValues := ∅; vault := ∅; calls := [] |}.

(** The front matter [status: draft] for every document. *)
Definition statusDraft : gmap jsstring value :=
  {[ str "status" := VStr (str "draft") ]}.

Definition reloadOnStatus : CommandGroup :=
  {| cg_watchedField := str "status"; command := str "app:reload"; cg_active := true |}.

Definition onlyReload : Settings :=
  {| headerGroups := []; commandGroups := [reloadOnStatus] |}.

Definition statusHeading : HeaderGroup :=
  {| hg_watchedField := str "status"; header := str "## Status"; hg_active := true |}.

Definition headingAndReload : Settings :=
  {| headerGroups := [statusHeading]; commandGroups := [reloadOnStatus] |}.

(** The state after the first dispatch of [statusDraft] for [note]. *)
Definition seeded : State :=
  {| lastMetadataValues :=
       {[ cacheKey (str "notes/a.md") (str "status") := VStr (str "draft") ]};
     vault := ∅; calls := [] |}.

(** A header group and a command group left with an empty field name,
    as the settings tab creates them. *)
Definition blankHeading : HeaderGroup :=
  {| hg_watchedField := []; header := str "## Status"; hg_active := true |}.

Definition blankCommand : CommandGroup :=
  {| cg_watchedField := []; command := str "app:reload"; cg_active := true |}.

Definition withBlanks : Settings :=
  {| headerGroups := [blankHeading; statusHeading];
     commandGroups := [blankCommand; reloadOnStatus] |}.

Definition onlyBlankHeading : Settings :=
  {| headerGroups := [blankHeading]; commandGroups := [] |}.

(** A front matter with a value under the empty key. *)
Definition emptyKeyed : gmap jsstring value := {[ [] := VStr (str "x") ]}.

(** The note with a status heading, nothing cached. *)
Definition statusNote : State :=
  {| lastMetadataValues := ∅;
     vault := {[ str "notes/a.md" := str "## Status old" ]};
     calls := [] |}.



(** A second heading, fed by the field [due]. *)
Definition dueHeading : HeaderGroup :=
  {| hg_watchedField := str "due"; header := str "## Due"; hg_active := true |}.

Definition statusAndDue : gmap jsstring value :=
  {[ str "status" := VStr (str "draft"); str "due" := VStr (str "2024-01-01") ]}.

Definition twoHeadingsAndReload : Settings :=
  {| headerGroups := [statusHeading; dueHeading]; commandGroups := [reloadOnStatus] |}.

(** A host whose vault refuses every write. *)
Definition readOnlyHost (fm : jsstring → option (gmap jsstring value)) : Host :=
  {| frontmatter := fm;
     regexpReplace := referenceReplace;
     modifyFails := λ _, true;
     commandFails := λ _, false;
     numberToString := printNumber;
     objectToString := λ _, Some (str "[object Object]") |}.

(** [statusNote] after a read and a refused write. *)
Definition refused : State :=
  {| lastMetadataValues := ∅;
     vault := {[ str "notes/a.md" := str "## Status old" ]};
     calls := [EvRead (str "notes/a.md");
               EvModify (str "notes/a.md") (str "## Status draft")] |}.

(** A runtime in which texts are their own normal and lower-case form. *)
Definition plainRuntime : Runtime :=
  {| normalizeNFD := λ t, t; toLowerCase := λ t, t |}.

Definition registry : list Command :=
  [ {| cmd_id := str "app:reload"; cmd_name := str "reload app" |};
    {| cmd_id := str "editor:save"; cmd_name := str "save file" |};
    {| cmd_id := str "app:open"; cmd_name := str "open vault" |} ].

(** The front matter [status: final] for every document. *)
Definition statusFinal : gmap jsstring value :=
  {[ str "status" := VStr (str "final") ]}.

(** A host without front matter, to run the rewrite alone. *)
Definition bare : Host := referenceHost (λ _, None).

(** A heading whose text contains a dot. *)
Definition versionHeader : jsstring := str "## v1.0".

(** The line [## v1x0 notes], ended by a line feed. *)
Definition draftLine : jsstring * N := (str "## v1x0 notes", 10).

(** The line [intro], ended by a line feed. *)
Definition introLine : jsstring * N := (str "intro", 10).

Definition onlyStatusHeading : Settings :=
  {| headerGroups := [statusHeading]; commandGroups := [] |}.

(** A note without the heading. *)
Definition plainNote : State :=
  {| lastMetadataValues := ∅;
     vault := {[ str "notes/a.md" := str "body text" ]};
     calls := [] |}.

(** A heading with a dot in its text, fed by [status]. *)
Definition versionHeading : HeaderGroup :=
  {| hg_watchedField := str "status"; header := str "## v1.0"; hg_active := true |}.

(** A second heading fed by the same field [status]. *)
Definition stateHeading : HeaderGroup :=
  {| hg_watchedField := str "status"; header := str "## State"; hg_active := true |}.

Definition twoHeadingsOneField : Settings :=
  {| headerGroups := [statusHeading; stateHeading]; commandGroups := [] |}.

(** A note with both headings, nothing cached. *)
Definition twoHeadingNote : State :=
  {| lastMetadataValues := ∅;
     vault := {[ str "notes/a.md" := str "## Status old" ++ 10 :: str "## State old" ]};
     calls := [] |}.

End Sample.
(* ===================================================================== *)
(** ** Loops and single iterations *)
(* ===================================================================== *)

Section Loops.
Context {X : Type} (body : X → Eff unit).

Lemma forOf_app xs ys s :
  forOf (xs ++ ys) body s =
  match forOf xs body s with
  | (Normal _, s1) => forOf ys body s1
  | (Throw, s1) => (Throw, s1)
  end.
Proof.
  revert s. induction xs as [|x xs IH]; intros s; simpl.
  - reflexivity.
  - unfold bind. destruct (body x s) as [[[]|] s1]; [apply IH | reflexivity].
Qed.

(** A reflexive and transitive relation kept by every iteration is kept
    by the loop, however it ends. *)
Lemma forOf_rel (R : State → State → Prop) `{!Reflexive R, !Transitive R} xs :
  (∀ x s out s', x ∈ xs → body x s = (out, s') → R s s') →
  ∀ s out s', forOf xs body s = (out, s') → R s s'.
Proof.
  induction xs as [|x xs IH]; intros Hbody s out s' Hrun; simpl in Hrun.
  - inversion Hrun. reflexivity.
  - unfold bind in Hrun. destruct (body x s) as [[[]|] s1] eqn:Hx.
    + transitivity s1.
      * eapply Hbody; [left | exact Hx].
      * eapply IH; [|exact Hrun]. intros y t o t' Hy. apply Hbody. by right.
    + inversion Hrun; subst. eapply Hbody; [left | exact Hx].
Qed.

(** Iterations that do nothing can be dropped from the list. *)
Lemma forOf_filter (keep : X → bool) xs :
  (∀ x s, keep x = false → body x s = (Normal tt, s)) →
  ∀ s, forOf (List.filter keep xs) body s = forOf xs body s.
Proof.
  intros Hskip. induction xs as [|x xs IH]; intros s; simpl; [reflexivity|].
  destruct (keep x) eqn:Hk; simpl; unfold bind.
  - destruct (body x s) as [[[]|] s1]; [apply IH | reflexivity].
  - rewrite (Hskip x s Hk). apply IH.
Qed.

(** A loop that returns has returned from each of its iterations. *)
Lemma forOf_normal_split pre x post s s' :
  forOf (pre ++ x :: post) body s = (Normal tt, s') →
  ∃ s1 s2, forOf pre body s = (Normal tt, s1)
           ∧ body x s1 = (Normal tt, s2)
           ∧ forOf post body s2 = (Normal tt, s').
Proof.
  rewrite forOf_app. destruct (forOf pre body s) as [[[]|] s1]; [|discriminate].
  simpl. unfold bind. destruct (body x s1) as [[[]|] s2] eqn:Hx; [|discriminate].
  intros Hpost. exists s1, s2. auto.
Qed.
End Loops.

(** *** The cache key within one document *)

Lemma cacheKey_same_path p f1 f2 : cacheKey p f1 = cacheKey p f2 → f1 = f2.
Proof.
  unfold cacheKey. intros H. apply app_inv_head in H. by apply app_inv_head in H.
Qed.

Ltac run_step :=
  unfold headerGroupStep, commandGroupStep, seedGroup, bind, ret, getLast,
    setLast, vaultRead, vaultModify, executeCommandById, orThrow, logCall in *;
  simpl in *.

Ltac split_cases :=
  repeat match goal with
    | H : context [if ?b then _ else _] |- _ => destruct b eqn:?
    | H : context [match ?o with Some _ => _ | None => _ end] |- _ => destruct o eqn:?
    | H : (_, _) = (_, _) |- _ => inversion H; subst; clear H
    end; simpl in *.

Lemma seedGroup_cacheStep `{WatchRule G} file metadata (g : G) s out s' :
  seedGroup file metadata g s = (out, s') → cacheStep file metadata g s s'.
Proof.
  intros Hrun. run_step. split_cases; [|by left].
  right. apply andb_prop in Heqb as [Ha Ht]. by repeat split.
Qed.

Lemma headerGroupStep_cacheStep host file metadata g s out s' :
  headerGroupStep host file metadata g s = (out, s') → cacheStep file metadata g s s'.
Proof.
  intros Hrun. run_step. split_cases; try by left.
  right. apply andb_prop in Heqb as [Ha Ht]. by repeat split.
Qed.

Lemma commandGroupStep_cacheStep host file metadata g s out s' :
  commandGroupStep host file metadata g s = (out, s') → cacheStep file metadata g s s'.
Proof.
  intros Hrun. run_step. split_cases; try by left.
  all: right; apply andb_prop in Heqb as [Ha Ht]; by repeat split.
Qed.

(** Consequences for one key. *)
Lemma cacheStep_other `{WatchRule G} file metadata (g : G) s s' f :
  cacheStep file metadata g s s' →
  (active g = true → watchedField g ≠ f) →
  lastMetadataValues s' !! cacheKey (path file) f
  = lastMetadataValues s !! cacheKey (path file) f.
Proof.
  intros [->|(Hact & _ & ->)] Hne; [reflexivity|].
  apply lookup_insert_ne. intros Heq. apply cacheKey_same_path in Heq. by apply Hne.
Qed.

Lemma cacheStep_current `{WatchRule G} file metadata (g : G) s s' f :
  cacheStep file metadata g s s' →
  lastMetadataValues s' !! cacheKey (path file) f
  = lastMetadataValues s !! cacheKey (path file) f
  ∨ lastMetadataValues s' !! cacheKey (path file) f = Some (getProp metadata f).
Proof.
  intros [->|(_ & _ & ->)]; [by left|].
  destruct (decide (watchedField g = f)) as [<-|Hne].
  - right. apply lookup_insert_eq.
  - left. apply lookup_insert_ne. intros Heq. by apply cacheKey_same_path in Heq.
Qed.

(** *** The calls made by one iteration *)

Lemma headerGroupStep_calls host file metadata g s out s' :
  headerGroupStep host file metadata g s = (out, s') →
  ∃ evs, calls s' = calls s ++ evs ∧ ∀ f id, EvCommand f id ∉ evs.
Proof.
  intros Hrun. run_step. split_cases.
  all: try (exists []; split; [by rewrite app_nil_r | intros ? ?; apply not_elem_of_nil]).
  all: try (eexists [_]; split; [reflexivity | intros ? ? Hin;
            apply list_elem_of_singleton in Hin; discriminate]).
  all: eexists [_; _]; split; [by rewrite <- app_assoc | intros ? ? Hin];
    apply elem_of_cons in Hin as [Hin|Hin]; [discriminate|];
    apply list_elem_of_singleton in Hin; discriminate.
Qed.

(** A command group calls its command only over a baseline that exists and
    differs from the current value. *)
Lemma commandGroupStep_calls host file metadata g s out s' :
  commandGroupStep host file metadata g s = (out, s') →
  calls s' = calls s
  ∨ (calls s' = calls s ++ [EvCommand (watchedField g) (command g)]
     ∧ getProp (lastMetadataValues s) (cacheKey (path file) (watchedField g))
       ≠ getProp metadata (watchedField g)
     ∧ getProp (lastMetadataValues s) (cacheKey (path file) (watchedField g))
       ≠ VUndefined).
Proof.
  intros Hrun. unfold strictEquals in *. run_step. split_cases; try by left.
  all: right; split; [reflexivity|].
  all: apply negb_true_iff in Heqb0, Heqb1;
    apply bool_decide_eq_false in Heqb0, Heqb1; split; congruence.
Qed.

Lemma commandGroupStep_sets host file metadata g s s' :
  active g = true →
  truthy (getProp metadata (watchedField g)) = true →
  commandGroupStep host file metadata g s = (Normal tt, s') →
  lastMetadataValues s' !! cacheKey (path file) (watchedField g)
  = Some (getProp metadata (watchedField g)).
Proof.
  intros Ha Ht Hrun. unfold commandGroupStep in Hrun. rewrite Ha, Ht in Hrun.
  run_step. split_cases; apply lookup_insert_eq.
Qed.

#[local] Instance quietFor_refl file metadata f : Reflexive (quietFor file metadata f).
Proof.
  intros s Hs. split; [exact Hs|]. exists []. split; [by rewrite app_nil_r|].
  intros id. apply not_elem_of_nil.
Qed.

#[local] Instance quietFor_trans file metadata f : Transitive (quietFor file metadata f).
Proof.
  intros s1 s2 s3 H12 H23 H1.
  destruct (H12 H1) as (H2 & evs1 & E1 & N1).
  destruct (H23 H2) as (H3 & evs2 & E2 & N2).
  split; [exact H3|]. exists (evs1 ++ evs2). split.
  - by rewrite E2, E1, app_assoc.
  - intros id Hin. apply elem_of_app in Hin as [Hin|Hin]; [by eapply N1 | by eapply N2].
Qed.

#[local] Instance staysCurrent_refl file metadata f : Reflexive (staysCurrent file metadata f).
Proof. intros s Hs. exact Hs. Qed.

#[local] Instance staysCurrent_trans file metadata f : Transitive (staysCurrent file metadata f).
Proof. intros s1 s2 s3 H12 H23 H1. apply H23, H12, H1. Qed.

Lemma cacheStep_staysCurrent `{WatchRule G} file metadata (g : G) f s s' :
  cacheStep file metadata g s s' → staysCurrent file metadata f s s'.
Proof.
  intros Hstep Hs. destruct (cacheStep_current _ _ _ _ _ f Hstep) as [Heq|Heq];
    [by rewrite Heq | exact Heq].
Qed.

Lemma cacheStep_unseenOrCurrent `{WatchRule G} file metadata (g : G) f s s' :
  cacheStep file metadata g s s' →
  unseenOrCurrent file metadata f s → unseenOrCurrent file metadata f s'.
Proof.
  intros Hstep Hs. unfold unseenOrCurrent in *.
  destruct (cacheStep_current _ _ _ _ _ f Hstep) as [Heq|Heq];
    [by rewrite Heq | by right].
Qed.

Lemma headerGroupStep_quiet host file metadata f g s out s' :
  headerGroupStep host file metadata g s = (out, s') → quietFor file metadata f s s'.
Proof.
  intros Hrun Hs. split.
  - apply (cacheStep_unseenOrCurrent file metadata g f s s'); [|exact Hs].
    by eapply headerGroupStep_cacheStep.
  - destruct (headerGroupStep_calls _ _ _ _ _ _ _ Hrun) as (evs & E & N). eauto.
Qed.

Lemma commandGroupStep_quiet host file metadata f g s out s' :
  commandGroupStep host file metadata g s = (out, s') → quietFor file metadata f s s'.
Proof.
  intros Hrun Hs. split.
  - apply (cacheStep_unseenOrCurrent file metadata g f s s'); [|exact Hs].
    by eapply commandGroupStep_cacheStep.
  - destruct (commandGroupStep_calls _ _ _ _ _ _ _ Hrun) as [E|(E & Hne & Hdef)].
    + exists []. split; [by rewrite app_nil_r|]. intros id. apply not_elem_of_nil.
    + eexists. split; [exact E|]. intros id Hin.
      apply list_elem_of_singleton in Hin. injection Hin as -> _.
      destruct Hs as [Hs|Hs].
      * apply Hdef. unfold getProp at 1. simpl in *. by rewrite Hs.
      * apply Hne. unfold getProp at 1. simpl in *. by rewrite Hs.
Qed.

(** *** The two passes *)

Lemma processHeaderGroups_quiet host settings file metadata f s out s' :
  processHeaderGroups host settings file metadata s = (out, s') →
  quietFor file metadata f s s'.
Proof.
  unfold processHeaderGroups. apply forOf_rel; [apply _ ..|].
  intros g t o t' _ Hg. by eapply headerGroupStep_quiet.
Qed.

Lemma processCommandGroups_quiet host settings file metadata f s out s' :
  processCommandGroups host settings file metadata s = (out, s') →
  quietFor file metadata f s s'.
Proof.
  unfold processCommandGroups. apply forOf_rel; [apply _ ..|].
  intros g t o t' _ Hg. by eapply commandGroupStep_quiet.
Qed.

Lemma commandLoop_staysCurrent host file metadata f gs s out s' :
  forOf gs (commandGroupStep host file metadata) s = (out, s') →
  staysCurrent file metadata f s s'.
Proof.
  apply forOf_rel; [apply _ ..|].
  intros g t o t' _ Hg. apply (cacheStep_staysCurrent file metadata g f t t').
  by eapply commandGroupStep_cacheStep.
Qed.

Lemma headerLoop_staysCurrent host file metadata f gs s out s' :
  forOf gs (headerGroupStep host file metadata) s = (out, s') →
  staysCurrent file metadata f s s'.
Proof.
  apply forOf_rel; [apply _ ..|].
  intros g t o t' _ Hg. apply (cacheStep_staysCurrent file metadata g f t t').
  by eapply headerGroupStep_cacheStep.
Qed.

(* ===================================================================== *)
(** ** A dispatch over an unchanged snapshot *)
(* ===================================================================== *)

Lemma forOf_noop {X} (body : X → Eff unit) xs s :
  (∀ x, x ∈ xs → body x s = (Normal tt, s)) → forOf xs body s = (Normal tt, s).
Proof.
  induction xs as [|x xs IH]; intros Hbody; simpl; [reflexivity|].
  unfold bind. rewrite (Hbody x) by left. apply IH. intros y Hy. apply Hbody. by right.
Qed.

Lemma state_insert_id s k v :
  lastMetadataValues s !! k = Some v →
  {| lastMetadataValues := <[k := v]> (lastMetadataValues s);
     vault := vault s; calls := calls s |} = s.
Proof. intros Hk. rewrite insert_id by exact Hk. by destruct s. Qed.

Lemma headerGroupStep_unchanged host file metadata g s :
  (active g = true → truthy (getProp metadata (watchedField g)) = true →
   lastMetadataValues s !! cacheKey (path file) (watchedField g)
   = Some (getProp metadata (watchedField g))) →
  headerGroupStep host file metadata g s = (Normal tt, s).
Proof.
  intros Hsame. unfold headerGroupStep.
  destruct (active g) eqn:Ha; [|reflexivity].
  destruct (truthy _) eqn:Ht; [|reflexivity]. cbn [andb].
  unfold bind, getLast, getProp at 2. rewrite Hsame by reflexivity. cbn [default].
  unfold strictEquals. by rewrite bool_decide_eq_true_2.
Qed.

Lemma commandGroupStep_unchanged host file metadata g s :
  (active g = true → truthy (getProp metadata (watchedField g)) = true →
   lastMetadataValues s !! cacheKey (path file) (watchedField g)
   = Some (getProp metadata (watchedField g))) →
  commandGroupStep host file metadata g s = (Normal tt, s).
Proof.
  intros Hsame. unfold commandGroupStep.
  destruct (active g) eqn:Ha; [|reflexivity].
  destruct (truthy _) eqn:Ht; [|reflexivity]. cbn [andb].
  unfold bind, getLast, getProp at 2. rewrite Hsame by reflexivity. cbn [default].
  unfold strictEquals. rewrite bool_decide_eq_true_2 by reflexivity. cbn [negb].
  unfold ret, setLast. f_equal. by apply state_insert_id, Hsame.
Qed.

(** C3.  When, for every active group of either kind whose watched field
    is truthy in the snapshot, the cache already holds the snapshot's
    value, the dispatch returns and leaves the state as it was: no document
    is read or written, no command is called, and the cache is the same
    map. *)
Theorem redispatch_is_noop host settings file metadata s :
  frontmatter host (path file) = Some metadata →
  (∀ g, g ∈ headerGroups settings → active g = true →
        truthy (getProp metadata (watchedField g)) = true →
        lastMetadataValues s !! cacheKey (path file) (watchedField g)
        = Some (getProp metadata (watchedField g))) →
  (∀ g, g ∈ commandGroups settings → active g = true →
        truthy (getProp metadata (watchedField g)) = true →
        lastMetadataValues s !! cacheKey (path file) (watchedField g)
        = Some (getProp metadata (watchedField g))) →
  onMetadataChanged host settings file s = (Normal tt, s).
Proof.
  intros Hfm Hh Hc. unfold onMetadataChanged. rewrite Hfm. unfold bind.
  unfold processHeaderGroups.
  rewrite forOf_noop by (intros g Hg; apply headerGroupStep_unchanged; auto).
  unfold processCommandGroups.
  apply forOf_noop. intros g Hg. apply commandGroupStep_unchanged. auto.
Qed.

Lemma redispatch_is_noop_witness :
  onMetadataChanged (referenceHost (λ _, Some Sample.statusDraft))
    Sample.headingAndReload Sample.note Sample.seeded
  = (Normal tt, Sample.seeded).
Proof.
  apply (redispatch_is_noop (referenceHost (λ _, Some Sample.statusDraft))
           Sample.headingAndReload Sample.note Sample.statusDraft Sample.seeded).
  - reflexivity.
  - intros g Hg _ _. apply list_elem_of_singleton in Hg. subst g. reflexivity.
  - intros g Hg _ _. apply list_elem_of_singleton in Hg. subst g. reflexivity.
Defined.

(* ===================================================================== *)
(** ** Groups with an empty watched field *)
(* ===================================================================== *)

Lemma filter_fmap {A B} (f : A → B) (keepA : A → bool) (keepB : B → bool) xs :
  (∀ x, keepB (f x) = keepA x) →
  List.filter keepB (f <$> xs) = f <$> List.filter keepA xs.
Proof.
  intros Hk. induction xs as [|x xs IH]; [reflexivity|].
  rewrite fmap_cons. cbn [List.filter]. rewrite Hk, IH.
  by destruct (keepA x).
Qed.

Lemma hasField_false `{WatchRule G} (g : G) : hasField g = false → watchedField g = [].
Proof.
  unfold hasField. intros Hk. apply negb_false_iff in Hk.
  by apply bool_decide_eq_true in Hk.
Qed.

Section EmptyField.
Context (host : Host) (file : TFile) (metadata : gmap jsstring value).
Hypothesis falsy : truthy (getProp metadata []) = false.

Lemma seedGroup_blank `{WatchRule G} (g : G) s :
  hasField g = false → seedGroup file metadata g s = (Normal tt, s).
Proof.
  intros Hk. unfold seedGroup. rewrite (hasField_false g Hk), falsy.
  by rewrite andb_false_r.
Qed.

Lemma headerGroupStep_blank g s :
  hasField g = false → headerGroupStep host file metadata g s = (Normal tt, s).
Proof.
  intros Hk. unfold headerGroupStep. rewrite (hasField_false g Hk), falsy.
  by rewrite andb_false_r.
Qed.

Lemma commandGroupStep_blank g s :
  hasField g = false → commandGroupStep host file metadata g s = (Normal tt, s).
Proof.
  intros Hk. unfold commandGroupStep. rewrite (hasField_false g Hk), falsy.
  by rewrite andb_false_r.
Qed.
End EmptyField.

(** C6, as the code has it.  For a document whose snapshot has no truthy
    value under the empty key, the groups whose watched field is the empty
    string do nothing, active or not: a metadata change and an open event
    run exactly as they do with these groups removed from the settings. *)
Theorem empty_field_rule_inert host settings file s :
  (∀ metadata, frontmatter host (path file) = Some metadata →
               truthy (getProp metadata []) = false) →
  onMetadataChanged host (dropEmptyField settings) file s
  = onMetadataChanged host settings file s
  ∧ onFileOpen host (dropEmptyField settings) file s
    = onFileOpen host settings file s.
Proof.
  intros Hfalsy. unfold onFileOpen, updateLastMetadataValues, onMetadataChanged.
  destruct (frontmatter host (path file)) as [metadata|]; [|by split].
  specialize (Hfalsy metadata eq_refl). split.
  - unfold bind, processHeaderGroups, processCommandGroups. simpl.
    rewrite forOf_filter by (intros; by apply headerGroupStep_blank).
    destruct (forOf (headerGroups settings) _ s) as [[[]|] s1]; [|reflexivity].
    apply forOf_filter. intros. by apply commandGroupStep_blank.
  - simpl.
    rewrite <- (filter_fmap inl hasField hasField) by reflexivity.
    rewrite <- (filter_fmap inr hasField hasField) by reflexivity.
    rewrite <- List.filter_app.
    apply forOf_filter. intros. by apply seedGroup_blank.
Qed.

Lemma empty_field_rule_inert_witness :
  onMetadataChanged (referenceHost (λ _, Some Sample.statusDraft))
    (dropEmptyField Sample.withBlanks) Sample.note Sample.statusNote
  = onMetadataChanged (referenceHost (λ _, Some Sample.statusDraft))
      Sample.withBlanks Sample.note Sample.statusNote
  ∧ onFileOpen (referenceHost (λ _, Some Sample.statusDraft))
      (dropEmptyField Sample.withBlanks) Sample.note Sample.statusNote
    = onFileOpen (referenceHost (λ _, Some Sample.statusDraft))
        Sample.withBlanks Sample.note Sample.statusNote.
Proof.
  apply (empty_field_rule_inert (referenceHost (λ _, Some Sample.statusDraft))
           Sample.withBlanks Sample.note Sample.statusNote).
  intros metadata Hfm. injection Hfm as <-. reflexivity.
Defined.

(** C6 fails as stated: with a value under the empty key in the front
    matter, an active header group whose watched field is empty reads the
    note, rewrites its heading and stores the value in the cache. *)
Lemma empty_field_rule_fires :
  watchedField Sample.blankHeading = []
  ∧ onMetadataChanged (referenceHost (λ _, Some Sample.emptyKeyed))
      Sample.onlyBlankHeading Sample.note Sample.statusNote
    = (Normal tt,
       {| lastMetadataValues := {[ str "notes/a.md-" := VStr (str "x") ]};
          vault := {[ str "notes/a.md" := str "## Status x" ]};
          calls := [EvRead (str "notes/a.md");
                    EvModify (str "notes/a.md") (str "## Status x")] |}).
Proof. split; [reflexivity | vm_compute; reflexivity]. Qed.

(* ===================================================================== *)
(** ** Fields that no active group watches *)
(* ===================================================================== *)

#[local] Instance keepsEntry_refl k : Reflexive (keepsEntry k).
Proof. intros s. reflexivity. Qed.

#[local] Instance keepsEntry_trans k : Transitive (keepsEntry k).
Proof. intros s1 s2 s3 H12 H23. unfold keepsEntry in *. congruence. Qed.

Lemma loop_keepsEntry `{WatchRule G} (body : G → Eff unit) file metadata f gs :
  (∀ g s out s', body g s = (out, s') → cacheStep file metadata g s s') →
  (∀ g, g ∈ gs → active g = true → watchedField g ≠ f) →
  ∀ s out s', forOf gs body s = (out, s') →
              keepsEntry (cacheKey (path file) f) s s'.
Proof.
  intros Hbody Hother. apply forOf_rel; [apply _ ..|].
  intros g s out s' Hg Hrun.
  apply (cacheStep_other file metadata g s s' f); [by eapply Hbody | by apply Hother].
Qed.




#[local] Instance silent_refl : Reflexive silent.
Proof. intros s. by split. Qed.

#[local] Instance silent_trans : Transitive silent.
Proof. intros a b c [? ?] [? ?]. split; congruence. Qed.

(** An open event does seed the entry of a field watched by an active
    group of either kind. *)
Lemma seedLoop_returns `{WatchRule G} file metadata (gs : list G) s :
  ∃ s', forOf gs (seedGroup file metadata) s = (Normal tt, s').
Proof.
  revert s. induction gs as [|g gs IH]; intros s; simpl; [by eexists|].
  unfold bind, seedGroup at 1.
  destruct (active g && truthy _); unfold setLast, ret; apply IH.
Qed.

Theorem open_seeds_active_rule host settings file metadata
    (g : HeaderGroup + CommandGroup) s :
  frontmatter host (path file) = Some metadata →
  g ∈ (inl <$> headerGroups settings) ++ (inr <$> commandGroups settings) →
  active g = true →
  truthy (getProp metadata (watchedField g)) = true →
  ∃ s', onFileOpen host settings file s = (Normal tt, s')
        ∧ calls s' = calls s ∧ vault s' = vault s
        ∧ lastMetadataValues s' !! cacheKey (path file) (watchedField g)
          = Some (getProp metadata (watchedField g)).
Proof.
  intros Hfm Hin Ha Ht. unfold onFileOpen, updateLastMetadataValues. rewrite Hfm.
  destruct (seedLoop_returns file metadata
              ((inl <$> headerGroups settings) ++ (inr <$> commandGroups settings)) s)
    as [s' Hrun].
  exists s'. split; [exact Hrun|].
  assert (Hquiet : silent s s').
  { revert Hrun. apply forOf_rel; [apply _ ..|].
    intros x t o t' _ Hx. unfold seedGroup, setLast, ret in Hx.
    destruct (active x && truthy _); inversion Hx; by split. }
  destruct Hquiet as [-> ->]. repeat split.
  apply list_elem_of_split in Hin as (pre & post & Hsplit). rewrite Hsplit in Hrun.
  apply forOf_normal_split in Hrun as (t1 & t2 & _ & Hg & Hpost).
  assert (Hstay : staysCurrent file metadata (watchedField g) t2 s').
  { revert Hpost. apply forOf_rel; [apply _ ..|].
    intros x t o t' _ Hx. apply (cacheStep_staysCurrent file metadata x _ t t').
    by eapply seedGroup_cacheStep. }
  apply Hstay. unfold seedGroup in Hg. rewrite Ha, Ht in Hg.
  unfold setLast in Hg. simpl in Hg. inversion Hg; subst. simpl. apply lookup_insert_eq.
Qed.

(* ===================================================================== *)
(** ** Failures *)
(* ===================================================================== *)

(** A refused write makes the iteration of a header group throw, after the
    read and the write attempt, with the cache untouched. *)
Lemma headerGroupStep_write_failure host file metadata g s content updated :
  active g = true →
  truthy (getProp metadata (watchedField g)) = true →
  getProp (lastMetadataValues s) (cacheKey (path file) (watchedField g))
  ≠ getProp metadata (watchedField g) →
  vault s !! path file = Some content →
  replaceHeaderWithMetadataValue host content (header g)
    (getProp metadata (watchedField g)) = Some updated →
  modifyFails host (path file) = true →
  headerGroupStep host file metadata g s
  = (Throw, logCall (EvModify (path file) updated) (logCall (EvRead (path file)) s)).
Proof.
  intros Ha Ht Hne Hfile Hrep Hfail. unfold headerGroupStep. rewrite Ha, Ht.
  cbn [andb]. unfold bind, getLast, strictEquals.
  rewrite bool_decide_eq_false_2 by congruence. cbn [negb].
  unfold vaultRead. rewrite Hfile, Hrep. unfold orThrow, vaultModify.
  by rewrite Hfail.
Qed.

(** A command that throws makes the iteration of its group throw, before
    the cache is written. *)
Lemma commandGroupStep_command_failure host file metadata g s previous :
  active g = true →
  truthy (getProp metadata (watchedField g)) = true →
  lastMetadataValues s !! cacheKey (path file) (watchedField g) = Some previous →
  previous ≠ getProp metadata (watchedField g) →
  previous ≠ VUndefined →
  commandFails host (command g) = true →
  commandGroupStep host file metadata g s
  = (Throw, logCall (EvCommand (watchedField g) (command g)) s).
Proof.
  intros Ha Ht Hprev Hne Hdef Hfail. unfold commandGroupStep. rewrite Ha, Ht.
  cbn [andb]. unfold bind, getLast.
  replace (getProp (lastMetadataValues s) (cacheKey (path file) (watchedField g)))
    with previous by (unfold getProp; by rewrite Hprev).
  unfold strictEquals. rewrite !bool_decide_eq_false_2 by congruence. cbn [negb].
  unfold executeCommandById. by rewrite Hfail.
Qed.




(* ===================================================================== *)
(** ** The cache key *)
(* ===================================================================== *)

Lemma split_at_first {A} (x : A) l1 r1 l2 r2 :
  x ∉ l1 → x ∉ l2 → l1 ++ x :: r1 = l2 ++ x :: r2 → l1 = l2 ∧ r1 = r2.
Proof.
  revert l2. induction l1 as [|a l1 IH]; intros [|b l2] H1 H2 Heq; simpl in Heq.
  - by injection Heq as ->.
  - injection Heq as <- _. exfalso. apply H2. left.
  - injection Heq as -> _. exfalso. apply H1. left.
  - injection Heq as -> Heq. apply not_elem_of_cons in H1 as [_ H1].
    apply not_elem_of_cons in H2 as [_ H2].
    destruct (IH l2 H1 H2 Heq) as [-> ->]. by split.
Qed.

(** C8, as the code has it.  The key is the path, a hyphen and the field
    name.  Two pairs with the same key are the same pair when neither path
    contains a hyphen, or neither field name does, or the pairs have the
    path or the field name in common. *)
Theorem cacheKey_injective p1 f1 p2 f2 :
  ((45 ∉ p1) ∧ (45 ∉ p2)) ∨ ((45 ∉ f1) ∧ (45 ∉ f2)) ∨ p1 = p2 ∨ f1 = f2 →
  cacheKey p1 f1 = cacheKey p2 f2 →
  p1 = p2 ∧ f1 = f2.
Proof.
  unfold cacheKey. change (str "-") with [45]. simpl.
  intros [[H1 H2]|[[H1 H2]|[->| ->]]] Heq.
  - by apply (split_at_first 45).
  - apply (f_equal reverse) in Heq. rewrite !reverse_app, !reverse_cons in Heq.
    rewrite <- !app_assoc in Heq. simpl in Heq.
    apply split_at_first in Heq as [Hf Hp]; [| by rewrite elem_of_reverse ..].
    split; by apply (inj reverse).
  - apply app_inv_head in Heq. by injection Heq as ->.
  - split; [|reflexivity]. by apply (app_inv_tail (45 :: f2)).
Qed.

Lemma cacheKey_injective_witness :
  str "notes/a.md" = str "notes/a.md" ∧ str "status" = str "status".
Proof.
  apply (cacheKey_injective (str "notes/a.md") (str "status")
           (str "notes/a.md") (str "status")).
  - right. left. split; apply (bool_decide_unpack _); vm_compute; exact I.
  - reflexivity.
Defined.

(** C8 fails as stated: paths and field names may contain the hyphen that
    separates them, and then two different pairs share a key. *)
Lemma cacheKey_collision :
  (str "log.md", str "old.md-status") ≠ (str "log.md-old.md", str "status")
  ∧ cacheKey (str "log.md") (str "old.md-status")
    = cacheKey (str "log.md-old.md") (str "status").
Proof. split; [discriminate | reflexivity]. Qed.

(* ===================================================================== *)
(** ** The header pattern on plain headers *)
(* ===================================================================== *)

(** Every text is made of terminated lines and a last line. *)
Lemma splitLines_spec s :
  s = unlines (splitLines s).1 ++ (splitLines s).2
  ∧ Forall (λ p, terminatorFree p.1 ∧ isLineTerminator p.2 = true) (splitLines s).1
  ∧ terminatorFree (splitLines s).2.
Proof.
  induction s as [|c s (IH1 & IH2 & IH3)]; simpl.
  - repeat split; constructor.
  - destruct (splitLines s) as [ls last]. simpl in *.
    destruct (isLineTerminator c) eqn:Hc; simpl.
    + repeat split; [by rewrite IH1 at 1 | | exact IH3].
      constructor; [|exact IH2]. split; [constructor | exact Hc].
    + destruct ls as [|[l t] ls]; simpl in *.
      * repeat split; [by rewrite IH1 at 1 | constructor |].
        constructor; [exact Hc | exact IH3].
      * apply Forall_cons in IH2 as [[Hl Ht] IH2]. simpl in *.
        repeat split; [by rewrite IH1 at 1 | | exact IH3].
        constructor; [|exact IH2]. split; [|exact Ht].
        constructor; [exact Hc | exact Hl].
Qed.

Lemma plainHeader_cons a h :
  plainHeader (a :: h) = true →
  (a =? 46) = false ∧ isLineTerminator a = false ∧ plainHeader h = true.
Proof.
  unfold plainHeader. simpl. intros H.
  apply andb_prop in H as [Ha Hh]. apply andb_prop in Ha as [Hs Ht].
  apply negb_true_iff in Hs, Ht. repeat split; [|exact Ht|exact Hh].
  destruct (N.eqb_spec a 46) as [->|]; [|reflexivity].
  by vm_compute in Hs.
Qed.

Lemma plainHeader_inFragment h : plainHeader h = true → inFragment h = true.
Proof.
  unfold plainHeader, inFragment. induction h as [|a h IH]; simpl; [done|].
  intros H. apply andb_prop in H as [Ha Hh]. apply andb_prop in Ha as [Hs _].
  rewrite Hs, orb_true_r. by apply IH.
Qed.

(** A plain header matches exactly itself. *)
Lemma matchHeader_plain h r :
  plainHeader h = true → matchHeader h (h ++ r) = Some (h, r).
Proof.
  induction h as [|a h IH]; intros Hp; simpl.
  - by destruct r.
  - apply plainHeader_cons in Hp as (Hdot & _ & Hp).
    by rewrite Hdot, N.eqb_refl, (IH Hp).
Qed.

(** A plain header that matches at the start of a line is a prefix of that
    line. *)
Lemma matchHeader_plain_inv h l t rest m r :
  plainHeader h = true →
  isLineTerminator t = true →
  matchHeader h (l ++ t :: rest) = Some (m, r) →
  h `prefix_of` l.
Proof.
  revert l m r. induction h as [|a h IH]; intros l m r Hp Ht Hm.
  - apply prefix_nil.
  - apply plainHeader_cons in Hp as (Hdot & Hterm & Hp).
    destruct l as [|c l]; simpl in Hm; rewrite Hdot in Hm.
    + destruct (N.eqb_spec a t) as [->|]; [congruence | discriminate].
    + destruct (N.eqb_spec a c) as [->|]; [|discriminate].
      destruct (matchHeader h (l ++ t :: rest)) as [[m' r']|] eqn:Hm'; [|discriminate].
      apply prefix_cons. by eapply IH.
Qed.

Lemma matchHeader_plain_last h l m r :
  plainHeader h = true → matchHeader h l = Some (m, r) → h `prefix_of` l.
Proof.
  revert l m r. induction h as [|a h IH]; intros l m r Hp Hm.
  - apply prefix_nil.
  - apply plainHeader_cons in Hp as (Hdot & _ & Hp).
    destruct l as [|c l]; simpl in Hm; [discriminate|]. rewrite Hdot in Hm.
    destruct (N.eqb_spec a c) as [->|]; [|discriminate].
    destruct (matchHeader h l) as [[m' r']|] eqn:Hm'; [|discriminate].
    apply prefix_cons. by eapply IH.
Qed.

Lemma restOfLine_line l rest :
  terminatorFree l →
  rest = [] ∨ (∃ t r, rest = t :: r ∧ isLineTerminator t = true) →
  restOfLine (l ++ rest) = (l, rest).
Proof.
  intros Hl Hrest. induction Hl as [|c l Hc Hl IH]; simpl.
  - destruct Hrest as [->|(t & r & -> & Ht)]; [reflexivity|]. simpl. by rewrite Ht.
  - by rewrite Hc, IH.
Qed.

Lemma execHeaderRegex_unfold h b s :
  execHeaderRegex h b s =
  match (if b then matchHeader h s else None) with
  | Some (m, rest) =>
      let (l, r) := restOfLine rest in
      Some {| before := []; capture1 := m; capture2 := l; after := r |}
  | None =>
      match s with
      | [] => None
      | c :: s' => shift c <$> execHeaderRegex h (isLineTerminator c) s'
      end
  end.
Proof. by destruct s. Qed.

Lemma shift_prepend c l (o : option Match) :
  shift c <$> (prepend l <$> o) = prepend (c :: l) <$> o.
Proof. by destruct o. Qed.

Lemma prepend_prepend l1 l2 (o : option Match) :
  prepend l1 <$> (prepend l2 <$> o) = prepend (l1 ++ l2) <$> o.
Proof. destruct o as [[]|]; simpl; [|reflexivity]. unfold prepend. simpl. by rewrite app_assoc. Qed.

Lemma prepend_nil (o : option Match) : prepend [] <$> o = o.
Proof. by destruct o as [[]|]. Qed.

(** Inside a line nothing matches: the search resumes after the
    terminator. *)
Lemma execHeaderRegex_midline h l t rest :
  terminatorFree l → isLineTerminator t = true →
  execHeaderRegex h false (l ++ t :: rest)
  = prepend (l ++ [t]) <$> execHeaderRegex h true rest.
Proof.
  intros Hl Ht. induction Hl as [|c l Hc Hl IH]; simpl.
  - rewrite Ht. by destruct (execHeaderRegex h true rest) as [[]|].
  - rewrite Hc, IH. apply shift_prepend.
Qed.

Lemma execHeaderRegex_skip_line h p rest :
  plainHeader h = true → otherLine h p →
  execHeaderRegex h true ((p.1 ++ [p.2]) ++ rest)
  = prepend (p.1 ++ [p.2]) <$> execHeaderRegex h true rest.
Proof.
  destruct p as [l t]. unfold otherLine. simpl. intros Hp (Hl & Ht & Hno).
  rewrite <- app_assoc. simpl. rewrite execHeaderRegex_unfold.
  destruct (matchHeader h (l ++ t :: rest)) as [[m r]|] eqn:Hm.
  { exfalso. apply Hno. by eapply matchHeader_plain_inv. }
  destruct l as [|c l]; simpl.
  - rewrite Ht. by destruct (execHeaderRegex h true rest) as [[]|].
  - apply Forall_cons in Hl as [Hc Hl].
    rewrite Hc, execHeaderRegex_midline by assumption. apply shift_prepend.
Qed.

Lemma unlines_cons p ls : unlines (p :: ls) = (p.1 ++ [p.2]) ++ unlines ls.
Proof. reflexivity. Qed.

Lemma execHeaderRegex_skip_lines h earlier rest :
  plainHeader h = true → Forall (otherLine h) earlier →
  execHeaderRegex h true (unlines earlier ++ rest)
  = prepend (unlines earlier) <$> execHeaderRegex h true rest.
Proof.
  intros Hp Hall. induction Hall as [|p earlier Hline Hall IH].
  - by rewrite prepend_nil.
  - rewrite unlines_cons, <- app_assoc.
    rewrite execHeaderRegex_skip_line by assumption.
    rewrite IH. apply prepend_prepend.
Qed.

Lemma execHeaderRegex_rest_of_line h l :
  terminatorFree l → execHeaderRegex h false l = None.
Proof.
  intros Hl. induction Hl as [|c l Hc Hl IH]; simpl; [reflexivity|].
  by rewrite Hc, IH.
Qed.

Lemma execHeaderRegex_last_line h l :
  plainHeader h = true → terminatorFree l → ¬ h `prefix_of` l →
  execHeaderRegex h true l = None.
Proof.
  intros Hp Hl Hno. rewrite execHeaderRegex_unfold.
  destruct (matchHeader h l) as [[m r]|] eqn:Hm.
  { exfalso. apply Hno. by eapply matchHeader_plain_last. }
  destruct Hl as [|c l Hc Hl]; [reflexivity|].
  by rewrite Hc, execHeaderRegex_rest_of_line.
Qed.

Lemma execHeaderRegex_found h tail rest :
  plainHeader h = true → terminatorFree tail →
  rest = [] ∨ (∃ t r, rest = t :: r ∧ isLineTerminator t = true) →
  execHeaderRegex h true (h ++ tail ++ rest)
  = Some {| before := []; capture1 := h; capture2 := tail; after := rest |}.
Proof.
  intros Hp Htail Hrest. rewrite execHeaderRegex_unfold.
  by rewrite matchHeader_plain, restOfLine_line.
Qed.

(** *** The replacement template *)

Lemma getSubstitution_literal matched front back captures template :
  36 ∉ template →
  getSubstitution matched front back captures template = template.
Proof.
  induction template as [|c t IH]; intros Hno; simpl; [reflexivity|].
  apply not_elem_of_cons in Hno as [Hc Hno].
  destruct (N.eqb_spec c 36) as [->|_]; [done|]. simpl. by rewrite IH.
Qed.

(** The template of the plugin, for a value without [$]: group 1, a
    space, the value. *)
Lemma getSubstitution_header_value matched front back c1 c2 v :
  36 ∉ v →
  getSubstitution matched front back [c1; c2] (str "$1 " ++ v)
  = c1 ++ str " " ++ v.
Proof.
  intros Hno. change (str "$1 " ++ v) with (36 :: 49 :: 32 :: v).
  change (str " " ++ v) with (32 :: v).
  cbn -[getSubstitution]. simpl. by rewrite getSubstitution_literal.
Qed.

(** *** The reference host follows the contract *)

Lemma headerOfSource_pattern h :
  headerOfSource (str "^(" ++ h ++ str ")(.*)$") = Some h.
Proof.
  change (str "^(" ++ h ++ str ")(.*)$") with (94 :: 40 :: (h ++ str ")(.*)$")).
  unfold headerOfSource. rewrite length_app.
  change (length (str ")(.*)$")) with 6%nat.
  replace (length h + 6 - 6)%nat with (length h) by lia.
  rewrite drop_app_length, take_app_length. by rewrite bool_decide_eq_true_2.
Qed.

Lemma referenceReplace_conforming header content replacement :
  inFragment header = true →
  referenceReplace (str "^(" ++ header ++ str ")(.*)$") content replacement
  = Some (replaceFirst header content replacement).
Proof.
  intros Hfrag. unfold referenceReplace. by rewrite headerOfSource_pattern, Hfrag.
Qed.

Lemma referenceHost_conforming fm : conforming (referenceHost fm).
Proof. intros h c r Hfrag. by apply referenceReplace_conforming. Qed.

(** *** The rewrite on a plain header *)

Lemma replaceFirst_found header earlier tail rest template :
  plainHeader header = true →
  Forall (otherLine header) earlier →
  terminatorFree tail →
  rest = [] ∨ (∃ t r, rest = t :: r ∧ isLineTerminator t = true) →
  replaceFirst header (unlines earlier ++ header ++ tail ++ rest) template
  = unlines earlier
    ++ getSubstitution (header ++ tail) (unlines earlier) rest [header; tail] template
    ++ rest.
Proof.
  intros Hp Hearlier Htail Hrest. unfold replaceFirst.
  rewrite execHeaderRegex_skip_lines, execHeaderRegex_found by assumption.
  simpl. by rewrite app_nil_r.
Qed.

Lemma replaceFirst_not_found header earlier last template :
  plainHeader header = true →
  Forall (otherLine header) earlier →
  terminatorFree last →
  ¬ header `prefix_of` last →
  replaceFirst header (unlines earlier ++ last) template = unlines earlier ++ last.
Proof.
  intros Hp Hearlier Hlast Hno. unfold replaceFirst.
  by rewrite execHeaderRegex_skip_lines, execHeaderRegex_last_line.
Qed.

Lemma replaceHeader_conforming host content header v text :
  conforming host → inFragment header = true →
  toString host v = Some text →
  replaceHeaderWithMetadataValue host content header v
  = Some (replaceFirst header content (str "$1 " ++ text)).
Proof.
  intros Hhost Hp Hv. unfold replaceHeaderWithMetadataValue. rewrite Hv.
  by apply Hhost.
Qed.

(** C5, as the code has it.  For a header without pattern syntax
    characters and a value whose string form, as the runtime gives it, has
    no [$]: in a text whose earlier lines do not start with the header, the
    first line that does becomes the header, one space and the string form
    of the value; what followed the header on that line is dropped, and the
    lines before and after are kept. *)
Theorem rewrite_first_header_line host header v text earlier tail rest :
  conforming host →
  plainHeader header = true →
  toString host v = Some text →
  36 ∉ text →
  Forall (otherLine header) earlier →
  terminatorFree tail →
  rest = [] ∨ (∃ t r, rest = t :: r ∧ isLineTerminator t = true) →
  replaceHeaderWithMetadataValue host
    (unlines earlier ++ header ++ tail ++ rest) header v
  = Some (unlines earlier ++ header ++ str " " ++ text ++ rest).
Proof.
  intros Hhost Hp Htext Hv Hearlier Htail Hrest.
  rewrite (replaceHeader_conforming host _ header v text)
    by (try apply plainHeader_inFragment; assumption).
  rewrite replaceFirst_found by assumption.
  rewrite getSubstitution_header_value by assumption.
  by rewrite <- !app_assoc.
Qed.

Lemma rewrite_first_header_line_witness :
  replaceHeaderWithMetadataValue Sample.bare
    (unlines [Sample.introLine] ++ str "## Status" ++ str " old" ++ 10 :: str "more")
    (str "## Status") (VStr (str "draft"))
  = Some (unlines [Sample.introLine] ++ str "## Status" ++ str " "
          ++ str "draft" ++ 10 :: str "more").
Proof.
  apply (rewrite_first_header_line Sample.bare (str "## Status") (VStr (str "draft"))
           (str "draft") [Sample.introLine] (str " old") (10 :: str "more")).
  - apply referenceHost_conforming.
  - reflexivity.
  - reflexivity.
  - apply (bool_decide_unpack _). vm_compute. exact I.
  - apply (bool_decide_unpack _). vm_compute. exact I.
  - apply (bool_decide_unpack _). vm_compute. exact I.
  - right. exists 10, (str "more"). split; reflexivity.
Defined.

(** C5 fails as stated: the header is handed to the engine as a pattern.
    With a dot in the header, the line [## v1x0 notes] matches although it
    does not start with the header; it is that line which is rewritten, the
    text it keeps is the text matched and not the header, and the first
    line that does start with the header is left alone. *)
Lemma dotted_header_rewrites_another_line :
  Forall (otherLine Sample.versionHeader) [Sample.draftLine]
  ∧ replaceHeaderWithMetadataValue Sample.bare
      (unlines [Sample.draftLine] ++ Sample.versionHeader ++ str " plan" ++ [])
      Sample.versionHeader (VStr (str "done"))
    = Some (str "## v1x0 done" ++ 10 :: str "## v1.0 plan")
  ∧ Some (str "## v1x0 done" ++ 10 :: str "## v1.0 plan")
    ≠ Some (unlines [Sample.draftLine] ++ Sample.versionHeader ++ str " "
            ++ str "done" ++ []).
Proof.
  split; [|split].
  - apply (bool_decide_unpack _). vm_compute. exact I.
  - vm_compute. reflexivity.
  - vm_compute. discriminate.
Qed.

(* ===================================================================== *)
(** ** An empty header *)
(* ===================================================================== *)

(** With an empty header the pattern matches at the start of the text: the
    first line becomes a space and the printed value, for a value without
    [$]. *)
Lemma empty_header_rewrites_first_line host v text first rest :
  conforming host →
  toString host v = Some text →
  36 ∉ text →
  terminatorFree first →
  rest = [] ∨ (∃ t r, rest = t :: r ∧ isLineTerminator t = true) →
  replaceHeaderWithMetadataValue host (first ++ rest) [] v
  = Some (str " " ++ text ++ rest).
Proof.
  intros Hhost Htext Hv Hfirst Hrest.
  rewrite (replaceHeader_conforming host _ [] v text) by done.
  rewrite (replaceFirst_found [] [] first rest) by done.
  by rewrite getSubstitution_header_value.
Qed.

(** C10.  The code at the inputs where the claim fails: the value is put
    into the replacement template as it is, so its [$] sequences are
    expanded.  With the value [$&] the first line is kept after the space
    instead of being dropped; with [$100] the line becomes a space and
    [00]. *)
Theorem empty_header_expands_dollar :
  replaceHeaderWithMetadataValue Sample.bare (str "abc") [] (VStr (str "$&"))
  = Some (str " abc")
  ∧ replaceHeaderWithMetadataValue Sample.bare (str "abc") [] (VStr (str "$100"))
    = Some (str " 00").
Proof. split; vm_compute; reflexivity. Qed.

(* ===================================================================== *)
(** ** A header that is not in the text *)
(* ===================================================================== *)

(** The search of the engine fails exactly when the pattern matches at no
    line start. *)
Lemma execHeaderRegex_none h b s :
  execHeaderRegex h b s = None ↔
  ∀ pre post, s = pre ++ post →
    (pre = [] ∧ b = true) ∨ (∃ pre' t, pre = pre' ++ [t] ∧ isLineTerminator t = true) →
    matchHeader h post = None.
Proof.
  revert b. induction s as [|c s IH]; intros b; rewrite execHeaderRegex_unfold.
  - split.
    + intros He pre post Hs Hpos.
      symmetry in Hs. apply app_eq_nil in Hs as [-> ->].
      destruct Hpos as [[_ ->]|(pre' & t & Hpre & _)].
      * destruct (matchHeader h []) as [[m r]|]; [|done].
        destruct (restOfLine r); discriminate.
      * destruct pre'; discriminate.
    + intros H. destruct b; [|done].
      rewrite (H [] []); [done|done|by left].
  - split.
    + intros He pre post Hs Hpos.
      assert (Hhere : b = true → matchHeader h (c :: s) = None).
      { intros ->. destruct (matchHeader h (c :: s)) as [[m r]|]; [|done].
        destruct (restOfLine r); discriminate. }
      assert (Hrest : execHeaderRegex h (isLineTerminator c) s = None).
      { destruct b; [rewrite Hhere in He by done|];
          by destruct (execHeaderRegex h (isLineTerminator c) s). }
      destruct Hpos as [[-> Hb]|(pre' & t & -> & Ht)].
      * simpl in Hs. subst post. by apply Hhere.
      * destruct pre' as [|a pre']; simpl in Hs; injection Hs as <- ->.
        -- apply (proj1 (IH _) Hrest [] post); [done|]. by left.
        -- apply (proj1 (IH _) Hrest (pre' ++ [t]) post); [done|].
           right. by exists pre', t.
    + intros H.
      assert (Hhere : (if b then matchHeader h (c :: s) else None) = None).
      { destruct b; [|done]. apply (H [] (c :: s)); [done|by left]. }
      rewrite Hhere.
      assert (Hrest : execHeaderRegex h (isLineTerminator c) s = None).
      { apply IH. intros pre post -> [[-> Hc]|(pre' & t & -> & Ht)].
        - apply (H [c] post); [done|]. right. by exists [], c.
        - apply (H (c :: pre' ++ [t]) post); [done|]. right. by exists (c :: pre'), t. }
      by rewrite Hrest.
Qed.

Lemma matchesNowhere_spec header content :
  matchesNowhere header content ↔ execHeaderRegex header true content = None.
Proof.
  rewrite execHeaderRegex_none. unfold matchesNowhere, lineStart. split.
  - intros H pre post Hs [[-> _]|Hpos]; apply (H _ _ Hs); [by left|by right].
  - intros H pre post Hs [->|Hpos]; apply (H _ _ Hs); [by left|by right].
Qed.

Lemma replaceFirst_nowhere header content template :
  matchesNowhere header content → replaceFirst header content template = content.
Proof.
  intros H. apply matchesNowhere_spec in H. unfold replaceFirst. by rewrite H.
Qed.

(** C4, as the code has it.  For a header made of ordinary characters and
    dots and a value that has a string form, in a text where the header
    pattern matches at no line start, the rewrite returns the text as it
    is.  And whenever the rewrite returns the text as it is, whatever the
    header, the dispatcher still writes it back: the iteration of an active
    header group with a truthy, changed value reads the document, calls
    [vault.modify] with the unchanged text, and stores the value in the
    cache.  The stored text stays the same. *)
Theorem header_not_found_writes_back host file metadata g s content :
  active g = true →
  truthy (getProp metadata (watchedField g)) = true →
  getProp (lastMetadataValues s) (cacheKey (path file) (watchedField g))
  ≠ getProp metadata (watchedField g) →
  vault s !! path file = Some content →
  modifyFails host (path file) = false →
  (conforming host →
   inFragment (header g) = true →
   is_Some (toString host (getProp metadata (watchedField g))) →
   matchesNowhere (header g) content →
   replaceHeaderWithMetadataValue host content (header g)
     (getProp metadata (watchedField g))
   = Some content)
  ∧ (replaceHeaderWithMetadataValue host content (header g)
       (getProp metadata (watchedField g))
     = Some content →
     headerGroupStep host file metadata g s
     = (Normal tt,
        {| lastMetadataValues :=
             <[cacheKey (path file) (watchedField g) := getProp metadata (watchedField g)]>
               (lastMetadataValues s);
           vault := vault s;
           calls := calls s ++ [EvRead (path file); EvModify (path file) content] |})).
Proof.
  intros Ha Ht Hne Hfile Hok. split.
  - intros Hhost Hfrag [text Htext] Hno.
    rewrite (replaceHeader_conforming host content (header g) _ text) by assumption.
    by rewrite replaceFirst_nowhere.
  - intros Hrep.
    unfold headerGroupStep. rewrite Ha, Ht. cbn [andb].
    unfold bind, getLast, strictEquals.
    rewrite bool_decide_eq_false_2 by congruence. cbn [negb].
    unfold vaultRead. rewrite Hfile, Hrep. unfold orThrow, vaultModify. rewrite Hok.
    unfold setLast, logCall. simpl. rewrite <- app_assoc.
    by rewrite (insert_id (vault s)).
Qed.

Lemma header_not_found_writes_back_witness :
  replaceHeaderWithMetadataValue (referenceHost (λ _, Some Sample.statusDraft))
    (str "body text") (header Sample.versionHeading)
    (getProp Sample.statusDraft (watchedField Sample.versionHeading))
  = Some (str "body text")
  ∧ headerGroupStep (referenceHost (λ _, Some Sample.statusDraft)) Sample.note
      Sample.statusDraft Sample.versionHeading Sample.plainNote
    = (Normal tt,
       {| lastMetadataValues :=
            <[cacheKey (path Sample.note) (watchedField Sample.versionHeading)
                := getProp Sample.statusDraft (watchedField Sample.versionHeading)]>
              (lastMetadataValues Sample.plainNote);
          vault := vault Sample.plainNote;
          calls := calls Sample.plainNote
                   ++ [EvRead (path Sample.note);
                       EvModify (path Sample.note) (str "body text")] |}).
Proof.
  destruct (header_not_found_writes_back (referenceHost (λ _, Some Sample.statusDraft))
              Sample.note Sample.statusDraft Sample.versionHeading Sample.plainNote
              (str "body text")) as [Hsame Hwrite].
  - reflexivity.
  - reflexivity.
  - vm_compute. discriminate.
  - reflexivity.
  - reflexivity.
  - assert (Hrep : replaceHeaderWithMetadataValue
                     (referenceHost (λ _, Some Sample.statusDraft))
                     (str "body text") (header Sample.versionHeading)
                     (getProp Sample.statusDraft (watchedField Sample.versionHeading))
                   = Some (str "body text")).
    { apply Hsame.
      - apply referenceHost_conforming.
      - reflexivity.
      - by eexists.
      - apply matchesNowhere_spec. vm_compute. reflexivity. }
    split; [exact Hrep|]. exact (Hwrite Hrep).
Defined.

(** C4 fails as stated: the note has no [## Status] line, and the dispatch
    calls [vault.modify] all the same, with the text it has read. *)
Lemma header_not_found_is_written :
  onMetadataChanged (referenceHost (λ _, Some Sample.statusDraft))
    Sample.onlyStatusHeading Sample.note Sample.plainNote
  = (Normal tt,
     {| lastMetadataValues := {[ str "notes/a.md-status" := VStr (str "draft") ]};
        vault := {[ str "notes/a.md" := str "body text" ]};
        calls := [EvRead (str "notes/a.md");
                  EvModify (str "notes/a.md") (str "body text")] |}).
Proof. vm_compute. reflexivity. Qed.

(* ===================================================================== *)
(** ** Header rules: the first observation is a change *)
(* ===================================================================== *)

Lemma truthy_defined v : truthy v = true → v ≠ VUndefined.
Proof. intros Ht ->. discriminate Ht. Qed.

(** An iteration of an active header group over a missing baseline that
    returns has read the document, rewritten it and written it back. *)
Lemma headerGroupStep_first host file metadata g s s' :
  active g = true →
  truthy (getProp metadata (watchedField g)) = true →
  lastMetadataValues s !! cacheKey (path file) (watchedField g) = None →
  headerGroupStep host file metadata g s = (Normal tt, s') →
  ∃ content updated,
    vault s !! path file = Some content
    ∧ replaceHeaderWithMetadataValue host content (header g)
        (getProp metadata (watchedField g)) = Some updated
    ∧ s' = {| lastMetadataValues :=
                <[cacheKey (path file) (watchedField g)
                    := getProp metadata (watchedField g)]> (lastMetadataValues s);
              vault := <[path file := updated]> (vault s);
              calls := calls s ++ [EvRead (path file); EvModify (path file) updated] |}.
Proof.
  intros Ha Ht Hnone Hrun. unfold headerGroupStep in Hrun. rewrite Ha, Ht in Hrun.
  cbn [andb] in Hrun. unfold bind, getLast, getProp at 2 in Hrun.
  rewrite Hnone in Hrun. cbn [default] in Hrun. unfold strictEquals in Hrun.
  rewrite bool_decide_eq_false_2 in Hrun by by apply truthy_defined.
  cbn [negb] in Hrun. unfold vaultRead in Hrun.
  destruct (vault s !! path file) as [content|] eqn:Hfile; [|discriminate].
  unfold orThrow in Hrun.
  destruct (replaceHeaderWithMetadataValue host content (header g) _)
    as [updated|] eqn:Hrep; [|discriminate].
  unfold vaultModify in Hrun. destruct (modifyFails host (path file)); [discriminate|].
  unfold setLast, logCall in Hrun. cbn [lastMetadataValues vault calls] in Hrun.
  rewrite <- app_assoc in Hrun. inversion Hrun.
  exists content, updated. by repeat split.
Qed.

(** C2, as the code has it.  Take an active header group whose watched
    field is truthy in the snapshot and that no earlier active header group
    watches, and a cache without an entry for the document and that field.
    When the iterations before the group return, the document is in the
    vault, the rewrite yields a text and the write does not fail, the group
    reads the document, rewrites it for its header and the current value,
    writes the result back and stores the value in the cache; however the
    dispatch ends, the value is still in the cache afterwards; and a later
    header group that watches the same field, when it is reached, does
    nothing. *)
Theorem header_reacts_on_first_observation
    host settings file metadata pre g post s s1 content updated :
  frontmatter host (path file) = Some metadata →
  headerGroups settings = pre ++ g :: post →
  (∀ g', g' ∈ pre → active g' = true → watchedField g' ≠ watchedField g) →
  active g = true →
  truthy (getProp metadata (watchedField g)) = true →
  lastMetadataValues s !! cacheKey (path file) (watchedField g) = None →
  forOf pre (headerGroupStep host file metadata) s = (Normal tt, s1) →
  vault s1 !! path file = Some content →
  replaceHeaderWithMetadataValue host content (header g)
    (getProp metadata (watchedField g)) = Some updated →
  modifyFails host (path file) = false →
  headerGroupStep host file metadata g s1
  = (Normal tt, rewritten file metadata g updated s1)
  ∧ (∀ out s', onMetadataChanged host settings file s = (out, s') →
       lastMetadataValues s' !! cacheKey (path file) (watchedField g)
       = Some (getProp metadata (watchedField g)))
  ∧ (∀ mid g2 post2 t,
       post = mid ++ g2 :: post2 →
       watchedField g2 = watchedField g →
       forOf mid (headerGroupStep host file metadata)
         (rewritten file metadata g updated s1) = (Normal tt, t) →
       headerGroupStep host file metadata g2 t = (Normal tt, t)).
Proof.
  intros Hfm Hsplit Hfirst Ha Ht Hnone Hpre Hfile Hrep Hok.
  assert (Hnone1 : lastMetadataValues s1 !! cacheKey (path file) (watchedField g) = None).
  { rewrite <- Hnone.
    eapply (loop_keepsEntry (headerGroupStep host file metadata) file metadata);
      [| exact Hfirst | exact Hpre].
    intros x t o t'. apply headerGroupStep_cacheStep. }
  assert (Hg : headerGroupStep host file metadata g s1
               = (Normal tt, rewritten file metadata g updated s1)).
  { unfold headerGroupStep. rewrite Ha, Ht. cbn [andb].
    unfold bind, getLast, getProp at 2. rewrite Hnone1. cbn [default].
    unfold strictEquals. rewrite bool_decide_eq_false_2 by by apply truthy_defined.
    cbn [negb]. unfold vaultRead. rewrite Hfile, Hrep.
    unfold orThrow, vaultModify. rewrite Hok.
    unfold setLast, logCall, rewritten. cbn [lastMetadataValues vault calls].
    by rewrite <- app_assoc. }
  assert (Hcur : lastMetadataValues (rewritten file metadata g updated s1)
                   !! cacheKey (path file) (watchedField g)
                 = Some (getProp metadata (watchedField g))).
  { unfold rewritten. cbn [lastMetadataValues]. apply lookup_insert_eq. }
  split; [exact Hg|]. split.
  - intros out s' Hrun.
    unfold onMetadataChanged in Hrun. rewrite Hfm in Hrun. unfold bind in Hrun.
    unfold processHeaderGroups in Hrun. rewrite Hsplit, forOf_app, Hpre in Hrun.
    simpl in Hrun. unfold bind in Hrun. rewrite Hg in Hrun.
    destruct (forOf post (headerGroupStep host file metadata)
                (rewritten file metadata g updated s1)) as [[[]|] s3] eqn:Hpost.
    + eapply commandLoop_staysCurrent; [exact Hrun|].
      eapply headerLoop_staysCurrent; [exact Hpost | exact Hcur].
    + inversion Hrun; subst.
      eapply headerLoop_staysCurrent; [exact Hpost | exact Hcur].
  - intros mid g2 post2 t _ Hsame Hmid.
    apply headerGroupStep_unchanged. intros _ _. rewrite Hsame.
    eapply headerLoop_staysCurrent; [exact Hmid | exact Hcur].
Qed.

Lemma header_reacts_on_first_observation_witness :
  headerGroupStep (referenceHost (λ _, Some Sample.statusDraft)) Sample.note
    Sample.statusDraft Sample.statusHeading Sample.twoHeadingNote
  = (Normal tt,
     rewritten Sample.note Sample.statusDraft Sample.statusHeading
       (str "## Status draft" ++ 10 :: str "## State old") Sample.twoHeadingNote)
  ∧ lastMetadataValues
      (snd (onMetadataChanged (referenceHost (λ _, Some Sample.statusDraft))
              Sample.twoHeadingsOneField Sample.note Sample.twoHeadingNote))
      !! cacheKey (path Sample.note) (watchedField Sample.statusHeading)
    = Some (getProp Sample.statusDraft (watchedField Sample.statusHeading))
  ∧ headerGroupStep (referenceHost (λ _, Some Sample.statusDraft)) Sample.note
      Sample.statusDraft Sample.stateHeading
      (rewritten Sample.note Sample.statusDraft Sample.statusHeading
         (str "## Status draft" ++ 10 :: str "## State old") Sample.twoHeadingNote)
    = (Normal tt,
       rewritten Sample.note Sample.statusDraft Sample.statusHeading
         (str "## Status draft" ++ 10 :: str "## State old") Sample.twoHeadingNote).
Proof.
  destruct (header_reacts_on_first_observation
              (referenceHost (λ _, Some Sample.statusDraft)) Sample.twoHeadingsOneField
              Sample.note Sample.statusDraft [] Sample.statusHeading
              [Sample.stateHeading] Sample.twoHeadingNote Sample.twoHeadingNote
              (str "## Status old" ++ 10 :: str "## State old")
              (str "## Status draft" ++ 10 :: str "## State old"))
    as (Hstep & Hentry & Hlater).
  - reflexivity.
  - reflexivity.
  - intros g' Hg'. by apply not_elem_of_nil in Hg'.
  - reflexivity.
  - reflexivity.
  - reflexivity.
  - reflexivity.
  - reflexivity.
  - vm_compute. reflexivity.
  - reflexivity.
  - split; [exact Hstep|]. split.
    + apply (Hentry (fst (onMetadataChanged (referenceHost (λ _, Some Sample.statusDraft))
                            Sample.twoHeadingsOneField Sample.note Sample.twoHeadingNote))).
      by destruct (onMetadataChanged _ _ _ _).
    + apply (Hlater [] Sample.stateHeading []); reflexivity.
Defined.

(** C2 fails as stated: two active header groups watch [status], the
    snapshot has a value for it and the cache has no entry.  One read and
    one write are made, for the first group; the heading of the second
    group is left as it was. *)
Lemma second_header_group_not_rewritten :
  active Sample.stateHeading = true
  ∧ truthy (getProp Sample.statusDraft (watchedField Sample.stateHeading)) = true
  ∧ lastMetadataValues Sample.twoHeadingNote
      !! cacheKey (path Sample.note) (watchedField Sample.stateHeading) = None
  ∧ onMetadataChanged (referenceHost (λ _, Some Sample.statusDraft))
      Sample.twoHeadingsOneField Sample.note Sample.twoHeadingNote
    = (Normal tt,
       {| lastMetadataValues := {[ str "notes/a.md-status" := VStr (str "draft") ]};
          vault := {[ str "notes/a.md"
                      := str "## Status draft" ++ 10 :: str "## State old" ]};
          calls := [EvRead (str "notes/a.md");
                    EvModify (str "notes/a.md")
                      (str "## Status draft" ++ 10 :: str "## State old")] |}).
Proof. repeat split; vm_compute; reflexivity. Qed.

(* ===================================================================== *)
(** ** When a dispatch returns *)
(* ===================================================================== *)

Lemma forOf_returns {X} (body : X → Eff unit) (I : State → Prop) xs :
  (∀ x s, x ∈ xs → I s → ∃ s', body x s = (Normal tt, s') ∧ I s') →
  ∀ s, I s → ∃ s', forOf xs body s = (Normal tt, s') ∧ I s'.
Proof.
  induction xs as [|x xs IH]; intros Hbody s Hs; simpl.
  - by exists s.
  - destruct (Hbody x s) as (s1 & Hx & Hs1); [left | exact Hs |].
    unfold bind. rewrite Hx. apply IH; [|exact Hs1].
    intros y t Hy. apply Hbody. by right.
Qed.

(** When the document is in the vault, the write does not fail, every
    rewrite that is asked for yields a text and no command of a command
    group fails, the dispatch returns. *)
Lemma dispatch_returns host settings file metadata s :
  frontmatter host (path file) = Some metadata →
  is_Some (vault s !! path file) →
  modifyFails host (path file) = false →
  (∀ h content, h ∈ headerGroups settings → active h = true →
     truthy (getProp metadata (watchedField h)) = true →
     is_Some (replaceHeaderWithMetadataValue host content (header h)
                (getProp metadata (watchedField h)))) →
  (∀ c, c ∈ commandGroups settings → commandFails host (command c) = false) →
  ∃ s', onMetadataChanged host settings file s = (Normal tt, s').
Proof.
  intros Hfm Hfile Hwrite Hrep Hcmd. unfold onMetadataChanged. rewrite Hfm.
  unfold bind, processHeaderGroups, processCommandGroups.
  destruct (forOf_returns (headerGroupStep host file metadata)
              (λ t, is_Some (vault t !! path file)) (headerGroups settings))
    with (s := s) as (s1 & -> & Hfile1); [|exact Hfile|].
  { intros g t Hg [content Hc]. unfold headerGroupStep.
    destruct (active g) eqn:Ha; [|by eexists; split; [|exists content]].
    destruct (truthy _) eqn:Ht; [|by eexists; split; [|exists content]].
    cbn [andb]. unfold bind, getLast.
    destruct (negb (strictEquals _ _)); [|by eexists; split; [|exists content]].
    unfold vaultRead. rewrite Hc.
    destruct (Hrep g content Hg Ha Ht) as [updated ->].
    unfold orThrow, vaultModify.
    rewrite Hwrite. unfold setLast. simpl. eexists. split; [reflexivity|].
    simpl. rewrite lookup_insert_eq. by eexists. }
  destruct (forOf_returns (commandGroupStep host file metadata)
              (λ _, True) (commandGroups settings))
    with (s := s1) as (s2 & -> & _); [|exact I|by eexists].
  intros g t Hg _. unfold commandGroupStep.
  destruct (active g && truthy _); [|by eexists].
  unfold bind, getLast.
  destruct (negb (strictEquals _ _)); [|by eexists].
  destruct (negb (strictEquals _ _)); [|by eexists].
  unfold executeCommandById. rewrite (Hcmd g Hg). by eexists.
Qed.

(** X23.  With headers made of ordinary characters and dots, a host that
    follows the contract, watched values that have a string form, a
    document that is in the vault, and neither writes nor commands failing,
    every dispatch returns. *)
Theorem onMetadataChanged_returns host settings file s :
  conforming host →
  (∀ g, g ∈ headerGroups settings → inFragment (header g) = true) →
  (∀ metadata g, frontmatter host (path file) = Some metadata →
     g ∈ headerGroups settings → active g = true →
     truthy (getProp metadata (watchedField g)) = true →
     is_Some (toString host (getProp metadata (watchedField g)))) →
  modifyFails host (path file) = false →
  (∀ id, commandFails host id = false) →
  is_Some (vault s !! path file) →
  ∃ s', onMetadataChanged host settings file s = (Normal tt, s').
Proof.
  intros Hhost Hfrag Hprint Hwrite Hcmd Hfile.
  destruct (frontmatter host (path file)) as [metadata|] eqn:Hfm.
  - apply (dispatch_returns host settings file metadata); try assumption.
    + intros h content Hh Ha Ht.
      destruct (Hprint metadata h eq_refl Hh Ha Ht) as [text Htext].
      rewrite (replaceHeader_conforming host content (header h) _ text) by auto.
      by eexists.
    + intros c _. apply Hcmd.
  - unfold onMetadataChanged. rewrite Hfm. by eexists.
Qed.

(* ===================================================================== *)
(** ** Action rules: the first observation is a baseline *)
(* ===================================================================== *)

(** C1, as the code has it.  Take an active command group whose watched
    field is truthy in the snapshot, and a cache without an entry for the
    document and that field when the metadata change is dispatched.
    However the dispatch ends, no command is called on behalf of that
    field and the cache entry is absent or the snapshot's value; when the
    dispatch returns, the cache entry is the snapshot's value.  And the
    dispatch does return, with the snapshot's value in the cache, when the
    document is in the vault, the write does not fail, every rewrite asked
    for by an active header group yields a text and no command of a
    command group fails. *)
Theorem first_observation_suppressed host settings file metadata g s :
  frontmatter host (path file) = Some metadata →
  g ∈ commandGroups settings →
  active g = true →
  truthy (getProp metadata (watchedField g)) = true →
  lastMetadataValues s !! cacheKey (path file) (watchedField g) = None →
  (∀ out s', onMetadataChanged host settings file s = (out, s') →
     (∃ evs, calls s' = calls s ++ evs ∧ ∀ id, EvCommand (watchedField g) id ∉ evs)
     ∧ unseenOrCurrent file metadata (watchedField g) s'
     ∧ (out = Normal tt →
        lastMetadataValues s' !! cacheKey (path file) (watchedField g)
        = Some (getProp metadata (watchedField g))))
  ∧ (is_Some (vault s !! path file) →
     modifyFails host (path file) = false →
     (∀ h content, h ∈ headerGroups settings → active h = true →
        truthy (getProp metadata (watchedField h)) = true →
        is_Some (replaceHeaderWithMetadataValue host content (header h)
                   (getProp metadata (watchedField h)))) →
     (∀ c, c ∈ commandGroups settings → commandFails host (command c) = false) →
     ∃ s', onMetadataChanged host settings file s = (Normal tt, s')
           ∧ lastMetadataValues s' !! cacheKey (path file) (watchedField g)
             = Some (getProp metadata (watchedField g))).
Proof.
  intros Hfm Hin Ha Ht Hnone.
  assert (Hany : ∀ out s', onMetadataChanged host settings file s = (out, s') →
     (∃ evs, calls s' = calls s ++ evs ∧ ∀ id, EvCommand (watchedField g) id ∉ evs)
     ∧ unseenOrCurrent file metadata (watchedField g) s'
     ∧ (out = Normal tt →
        lastMetadataValues s' !! cacheKey (path file) (watchedField g)
        = Some (getProp metadata (watchedField g)))).
  { intros out s' Hrun.
    unfold onMetadataChanged in Hrun. rewrite Hfm in Hrun. unfold bind in Hrun.
    destruct (processHeaderGroups host settings file metadata s) as [[[]|] s1] eqn:Hh.
    - assert (Hq : quietFor file metadata (watchedField g) s s').
      { transitivity s1;
          [by eapply processHeaderGroups_quiet | by eapply processCommandGroups_quiet]. }
      destruct (Hq (or_introl Hnone)) as [Hentry Hcalls].
      split; [exact Hcalls|]. split; [exact Hentry|].
      intros ->. unfold processCommandGroups in Hrun.
      apply list_elem_of_split in Hin as (pre & post & Hsplit). rewrite Hsplit in Hrun.
      apply forOf_normal_split in Hrun as (t1 & t2 & _ & Hg & Hpost).
      eapply commandLoop_staysCurrent; [exact Hpost|].
      by eapply commandGroupStep_sets.
    - inversion Hrun; subst.
      destruct (processHeaderGroups_quiet _ _ _ _ (watchedField g) _ _ _ Hh
                  (or_introl Hnone)) as [Hentry Hcalls].
      split; [exact Hcalls|]. split; [exact Hentry | discriminate]. }
  split; [exact Hany|].
  intros Hfile Hwrite Hrep Hcmd.
  destruct (dispatch_returns host settings file metadata s Hfm Hfile Hwrite Hrep Hcmd)
    as [s' Hrun].
  exists s'. split; [exact Hrun|].
  by apply (Hany (Normal tt) s' Hrun).
Qed.

Lemma first_observation_suppressed_witness :
  (∃ evs, calls (snd (onMetadataChanged (referenceHost (λ _, Some Sample.statusDraft))
                        Sample.headingAndReload Sample.note Sample.statusNote))
          = calls Sample.statusNote ++ evs
          ∧ ∀ id, EvCommand (watchedField Sample.reloadOnStatus) id ∉ evs)
  ∧ ∃ s', onMetadataChanged (referenceHost (λ _, Some Sample.statusDraft))
            Sample.headingAndReload Sample.note Sample.statusNote = (Normal tt, s')
          ∧ lastMetadataValues s'
              !! cacheKey (path Sample.note) (watchedField Sample.reloadOnStatus)
            = Some (getProp Sample.statusDraft (watchedField Sample.reloadOnStatus)).
Proof.
  destruct (first_observation_suppressed
              (referenceHost (λ _, Some Sample.statusDraft)) Sample.headingAndReload
              Sample.note Sample.statusDraft Sample.reloadOnStatus Sample.statusNote)
    as [Hany Hreturns].
  - reflexivity.
  - apply list_elem_of_here.
  - reflexivity.
  - reflexivity.
  - reflexivity.
  - split.
    + apply (Hany (fst (onMetadataChanged (referenceHost (λ _, Some Sample.statusDraft))
                          Sample.headingAndReload Sample.note Sample.statusNote))).
      by destruct (onMetadataChanged _ _ _ _).
    + apply Hreturns.
      * by eexists.
      * reflexivity.
      * intros h content Hh _ _. apply list_elem_of_singleton in Hh. subst h.
        rewrite (replaceHeader_conforming _ content (header Sample.statusHeading) _
                   (str "draft")); [by eexists | apply referenceHost_conforming | done..].
      * intros c Hc. reflexivity.
Defined.

(** C1 fails as stated: the write of the header pass is refused, the
    dispatch stops there, and the command pass that would have stored the
    value of [status] is never reached.  The command group is active, its
    field is truthy, the cache had no entry, and it has none afterwards. *)
Lemma first_observation_left_unseeded :
  Sample.reloadOnStatus ∈ commandGroups Sample.twoHeadingsAndReload
  ∧ active Sample.reloadOnStatus = true
  ∧ truthy (getProp Sample.statusAndDue (watchedField Sample.reloadOnStatus)) = true
  ∧ lastMetadataValues Sample.statusNote
      !! cacheKey (path Sample.note) (watchedField Sample.reloadOnStatus) = None
  ∧ onMetadataChanged (Sample.readOnlyHost (λ _, Some Sample.statusAndDue))
      Sample.twoHeadingsAndReload Sample.note Sample.statusNote
    = (Throw, Sample.refused)
  ∧ lastMetadataValues Sample.refused
      !! cacheKey (path Sample.note) (watchedField Sample.reloadOnStatus) = None.
Proof.
  split; [apply list_elem_of_here|]. repeat split; vm_compute; reflexivity.
Qed.

(* ===================================================================== *)
(** ** Baselines after an event *)
(* ===================================================================== *)

Lemma getProp_defined (m : gmap jsstring value) k v :
  getProp m k = v → v ≠ VUndefined → m !! k = Some v.
Proof.
  unfold getProp. destruct (m !! k) as [w|]; simpl; [by intros -> | congruence].
Qed.

Lemma headerGroupStep_sets host file metadata g s s' :
  active g = true →
  truthy (getProp metadata (watchedField g)) = true →
  headerGroupStep host file metadata g s = (Normal tt, s') →
  lastMetadataValues s' !! cacheKey (path file) (watchedField g)
  = Some (getProp metadata (watchedField g)).
Proof.
  intros Ha Ht Hrun. unfold headerGroupStep in Hrun. rewrite Ha, Ht in Hrun.
  cbn [andb] in Hrun. unfold bind, getLast, strictEquals in Hrun.
  destruct (bool_decide _) eqn:Heq; cbn [negb] in Hrun.
  - apply bool_decide_eq_true in Heq. unfold ret in Hrun. inversion Hrun; subst.
    apply getProp_defined; [by symmetry | by apply truthy_defined].
  - unfold vaultRead in Hrun.
    destruct (vault s !! path file) as [content|]; [|discriminate].
    unfold orThrow in Hrun.
    destruct (replaceHeaderWithMetadataValue host content (header g) _);
      [|discriminate].
    unfold vaultModify in Hrun.
    destruct (modifyFails host (path file)); [discriminate|].
    unfold setLast in Hrun. inversion Hrun. simpl. apply lookup_insert_eq.
Qed.

Lemma seedGroup_unchanged `{WatchRule G} file metadata (g : G) s :
  (active g = true → truthy (getProp metadata (watchedField g)) = true →
   lastMetadataValues s !! cacheKey (path file) (watchedField g)
   = Some (getProp metadata (watchedField g))) →
  seedGroup file metadata g s = (Normal tt, s).
Proof.
  intros Hsame. unfold seedGroup.
  destruct (active g) eqn:Ha; [|reflexivity].
  destruct (truthy _) eqn:Ht; [|reflexivity]. cbn [andb].
  unfold setLast. f_equal. by apply state_insert_id, Hsame.
Qed.

Lemma dispatch_of_baselined host settings file metadata s :
  frontmatter host (path file) = Some metadata →
  baselined settings file metadata s →
  onMetadataChanged host settings file s = (Normal tt, s).
Proof.
  intros Hfm [Hh Hc]. unfold onMetadataChanged. rewrite Hfm. unfold bind.
  unfold processHeaderGroups.
  rewrite forOf_noop by (intros g Hg; apply headerGroupStep_unchanged; auto).
  unfold processCommandGroups.
  apply forOf_noop. intros g Hg. apply commandGroupStep_unchanged. auto.
Qed.

Lemma open_of_baselined host settings file metadata s :
  frontmatter host (path file) = Some metadata →
  baselined settings file metadata s →
  onFileOpen host settings file s = (Normal tt, s).
Proof.
  intros Hfm [Hh Hc]. unfold onFileOpen, updateLastMetadataValues. rewrite Hfm.
  apply forOf_noop. intros g Hg. apply seedGroup_unchanged.
  apply elem_of_app in Hg as [Hg|Hg];
    apply list_elem_of_fmap in Hg as (g0 & -> & Hg0); simpl; auto.
Qed.

Lemma seedLoop_silent `{WatchRule G} file metadata (gs : list G) s out s' :
  forOf gs (seedGroup file metadata) s = (out, s') → silent s s'.
Proof.
  apply forOf_rel; [apply _ ..|].
  intros x t o t' _ Hx. unfold seedGroup, setLast, ret in Hx.
  destruct (active x && truthy _); inversion Hx; by split.
Qed.

Lemma dispatch_baselines host settings file metadata s s' :
  frontmatter host (path file) = Some metadata →
  onMetadataChanged host settings file s = (Normal tt, s') →
  baselined settings file metadata s'.
Proof.
  intros Hfm Hrun. unfold onMetadataChanged in Hrun. rewrite Hfm in Hrun.
  unfold bind in Hrun.
  destruct (processHeaderGroups host settings file metadata s) as [[[]|] s0] eqn:Hpass;
    [|discriminate].
  split; intros g Hg Ha Ht.
  - unfold processHeaderGroups in Hpass.
    apply list_elem_of_split in Hg as (pre & post & Hsplit). rewrite Hsplit in Hpass.
    apply forOf_normal_split in Hpass as (t1 & t2 & _ & Hstep & Hpost).
    eapply commandLoop_staysCurrent; [exact Hrun|].
    eapply headerLoop_staysCurrent; [exact Hpost|].
    by eapply headerGroupStep_sets.
  - unfold processCommandGroups in Hrun.
    apply list_elem_of_split in Hg as (pre & post & Hsplit). rewrite Hsplit in Hrun.
    apply forOf_normal_split in Hrun as (t1 & t2 & _ & Hstep & Hpost).
    eapply commandLoop_staysCurrent; [exact Hpost|].
    by eapply commandGroupStep_sets.
Qed.

Lemma onFileOpen_baselines host settings file metadata s :
  frontmatter host (path file) = Some metadata →
  ∃ s', onFileOpen host settings file s = (Normal tt, s')
        ∧ calls s' = calls s ∧ vault s' = vault s
        ∧ baselined settings file metadata s'.
Proof.
  intros Hfm.
  destruct (seedLoop_returns file metadata
              ((inl <$> headerGroups settings) ++ (inr <$> commandGroups settings)) s)
    as [s' Hrun].
  assert (Hopen : onFileOpen host settings file s = (Normal tt, s')).
  { unfold onFileOpen, updateLastMetadataValues. by rewrite Hfm. }
  exists s'. split; [exact Hopen|].
  destruct (seedLoop_silent _ _ _ _ _ _ Hrun) as [Hcalls Hvault].
  split; [exact Hcalls|]. split; [exact Hvault|].
  split; intros g Hg Ha Ht.
  - destruct (open_seeds_active_rule host settings file metadata (inl g) s Hfm)
      as (s'' & Hopen' & _ & _ & Hentry); [| exact Ha | exact Ht |].
    + apply elem_of_app. left. by apply list_elem_of_fmap_2.
    + rewrite Hopen in Hopen'. by injection Hopen' as ->.
  - destruct (open_seeds_active_rule host settings file metadata (inr g) s Hfm)
      as (s'' & Hopen' & _ & _ & Hentry); [| exact Ha | exact Ht |].
    + apply elem_of_app. right. by apply list_elem_of_fmap_2.
    + rewrite Hopen in Hopen'. by injection Hopen' as ->.
Qed.

(** X1.  Opening a document never reacts: the handler returns, calls
    nothing and leaves every document alone, whatever the cache held; and
    afterwards every active group whose field is truthy has the snapshot's
    value as its baseline. *)
Theorem open_reseeds_silently host settings file metadata s :
  frontmatter host (path file) = Some metadata →
  ∃ s', onFileOpen host settings file s = (Normal tt, s')
        ∧ calls s' = calls s ∧ vault s' = vault s
        ∧ baselined settings file metadata s'.
Proof. apply onFileOpen_baselines. Qed.

Lemma open_reseeds_silently_witness :
  ∃ s', onFileOpen (referenceHost (λ _, Some Sample.statusDraft))
          Sample.headingAndReload Sample.note Sample.statusNote = (Normal tt, s')
        ∧ calls s' = calls Sample.statusNote ∧ vault s' = vault Sample.statusNote
        ∧ baselined Sample.headingAndReload Sample.note Sample.statusDraft s'.
Proof.
  apply (open_reseeds_silently (referenceHost (λ _, Some Sample.statusDraft))
           Sample.headingAndReload Sample.note Sample.statusDraft Sample.statusNote).
  reflexivity.
Defined.

(** X2.  A metadata change that follows an open event of the same
    document, with the snapshot unchanged, does nothing: whatever the
    cache held before the open, nothing is rewritten and no command is
    called. *)
Theorem open_then_change_is_noop host settings file s out s1 :
  onFileOpen host settings file s = (out, s1) →
  onMetadataChanged host settings file s1 = (Normal tt, s1).
Proof.
  intros Hopen. destruct (frontmatter host (path file)) as [metadata|] eqn:Hfm.
  - destruct (onFileOpen_baselines host settings file metadata s Hfm)
      as (s' & Hopen' & _ & _ & Hbase).
    rewrite Hopen in Hopen'. injection Hopen' as _ <-.
    by apply (dispatch_of_baselined host settings file metadata).
  - unfold onMetadataChanged. by rewrite Hfm.
Qed.

Lemma open_then_change_is_noop_witness :
  onMetadataChanged (referenceHost (λ _, Some Sample.statusDraft))
    Sample.headingAndReload Sample.note
    (snd (onFileOpen (referenceHost (λ _, Some Sample.statusDraft))
            Sample.headingAndReload Sample.note Sample.statusNote))
  = (Normal tt,
     snd (onFileOpen (referenceHost (λ _, Some Sample.statusDraft))
            Sample.headingAndReload Sample.note Sample.statusNote)).
Proof.
  apply (open_then_change_is_noop (referenceHost (λ _, Some Sample.statusDraft))
           Sample.headingAndReload Sample.note Sample.statusNote (Normal tt)).
  vm_compute. reflexivity.
Defined.

(** X3.  A dispatch that has returned has brought the cache up to date: a
    second dispatch of the same snapshot returns and changes nothing. *)
Theorem dispatch_settles host settings file s s' :
  onMetadataChanged host settings file s = (Normal tt, s') →
  onMetadataChanged host settings file s' = (Normal tt, s').
Proof.
  intros Hrun. destruct (frontmatter host (path file)) as [metadata|] eqn:Hfm.
  - apply (dispatch_of_baselined host settings file metadata); [exact Hfm|].
    by eapply dispatch_baselines.
  - unfold onMetadataChanged. by rewrite Hfm.
Qed.

Lemma dispatch_settles_witness :
  onMetadataChanged (referenceHost (λ _, Some Sample.statusDraft))
    Sample.headingAndReload Sample.note
    (snd (onMetadataChanged (referenceHost (λ _, Some Sample.statusDraft))
            Sample.headingAndReload Sample.note Sample.statusNote))
  = (Normal tt,
     snd (onMetadataChanged (referenceHost (λ _, Some Sample.statusDraft))
            Sample.headingAndReload Sample.note Sample.statusNote)).
Proof.
  apply (dispatch_settles (referenceHost (λ _, Some Sample.statusDraft))
           Sample.headingAndReload Sample.note Sample.statusNote).
  vm_compute. reflexivity.
Defined.

(** X4.  Opening a document twice is the same as opening it once. *)
Theorem open_is_idempotent host settings file s out s1 :
  onFileOpen host settings file s = (out, s1) →
  onFileOpen host settings file s1 = (Normal tt, s1).
Proof.
  intros Hopen. destruct (frontmatter host (path file)) as [metadata|] eqn:Hfm.
  - destruct (onFileOpen_baselines host settings file metadata s Hfm)
      as (s' & Hopen' & _ & _ & Hbase).
    rewrite Hopen in Hopen'. injection Hopen' as _ <-.
    by apply (open_of_baselined host settings file metadata).
  - unfold onFileOpen, updateLastMetadataValues. by rewrite Hfm.
Qed.

Lemma open_is_idempotent_witness :
  onFileOpen (referenceHost (λ _, Some Sample.statusDraft))
    Sample.headingAndReload Sample.note
    (snd (onFileOpen (referenceHost (λ _, Some Sample.statusDraft))
            Sample.headingAndReload Sample.note Sample.statusNote))
  = (Normal tt,
     snd (onFileOpen (referenceHost (λ _, Some Sample.statusDraft))
            Sample.headingAndReload Sample.note Sample.statusNote)).
Proof.
  apply (open_is_idempotent (referenceHost (λ _, Some Sample.statusDraft))
           Sample.headingAndReload Sample.note Sample.statusNote (Normal tt)).
  vm_compute. reflexivity.
Defined.

(* ===================================================================== *)
(** ** When a command is called *)
(* ===================================================================== *)

#[local] Instance noCommandFor_refl f : Reflexive (noCommandFor f).
Proof.
  intros s. exists []. split; [by rewrite app_nil_r|]. intros id. apply not_elem_of_nil.
Qed.

#[local] Instance noCommandFor_trans f : Transitive (noCommandFor f).
Proof.
  intros s1 s2 s3 (evs1 & E1 & N1) (evs2 & E2 & N2). exists (evs1 ++ evs2). split.
  - by rewrite E2, E1, app_assoc.
  - intros id Hin. apply elem_of_app in Hin as [Hin|Hin]; [by eapply N1 | by eapply N2].
Qed.

(** The one call an iteration of a command group can make, and when. *)
Lemma commandGroupStep_events host file metadata g s out s' :
  commandGroupStep host file metadata g s = (out, s') →
  calls s' = calls s
  ∨ (calls s' = calls s ++ [EvCommand (watchedField g) (command g)]
     ∧ active g = true
     ∧ truthy (getProp metadata (watchedField g)) = true).
Proof.
  intros Hrun. run_step. split_cases; try by left.
  all: right; apply andb_prop in Heqb as [Ha Ht]; by repeat split.
Qed.

Lemma headerLoop_noCommandFor host file metadata f gs s out s' :
  forOf gs (headerGroupStep host file metadata) s = (out, s') → noCommandFor f s s'.
Proof.
  apply forOf_rel; [apply _ ..|].
  intros g t o t' _ Hg.
  destruct (headerGroupStep_calls _ _ _ _ _ _ _ Hg) as (evs & E & N).
  exists evs. split; [exact E|]. intros id. apply N.
Qed.

(** Command groups that do not watch a truthy [f] while active call
    nothing for [f]. *)
Lemma commandLoop_noCommandFor host file metadata f gs s out s' :
  (∀ g, g ∈ gs → active g = true →
        truthy (getProp metadata (watchedField g)) = true → watchedField g ≠ f) →
  forOf gs (commandGroupStep host file metadata) s = (out, s') → noCommandFor f s s'.
Proof.
  intros Hother. apply forOf_rel; [apply _ ..|].
  intros g t o t' Hin Hg.
  destruct (commandGroupStep_events _ _ _ _ _ _ _ Hg) as [E|(E & Ha & Ht)].
  - exists []. split; [by rewrite app_nil_r|]. intros id. apply not_elem_of_nil.
  - eexists. split; [exact E|]. intros id Hid.
    apply list_elem_of_singleton in Hid. injection Hid as Hf _.
    by apply (Hother g Hin Ha Ht).
Qed.

Lemma quietFor_noCommandFor file metadata f s s' :
  quietFor file metadata f s s' →
  lastMetadataValues s !! cacheKey (path file) f = Some (getProp metadata f) →
  noCommandFor f s s'.
Proof. intros Hq Hcur. by destruct (Hq (or_intror Hcur)) as [_ Hev]. Qed.

(** X5.  A field watched by an active header group never triggers a
    command: the header pass runs first and brings the baseline up to date
    (or the dispatch ends there), so the command groups watching the same
    field always find the value unchanged. *)
Theorem header_group_silences_commands host settings file (g : HeaderGroup) s out s' :
  g ∈ headerGroups settings →
  active g = true →
  onMetadataChanged host settings file s = (out, s') →
  ∃ evs, calls s' = calls s ++ evs ∧ ∀ id, EvCommand (watchedField g) id ∉ evs.
Proof.
  intros Hin Ha Hrun. change (noCommandFor (watchedField g) s s').
  unfold onMetadataChanged in Hrun.
  destruct (frontmatter host (path file)) as [metadata|]; [|inversion Hrun; reflexivity].
  unfold bind in Hrun.
  destruct (processHeaderGroups host settings file metadata s) as [[[]|] s0] eqn:Hpass.
  - transitivity s0; [by eapply headerLoop_noCommandFor|].
    destruct (truthy (getProp metadata (watchedField g))) eqn:Ht.
    + eapply quietFor_noCommandFor; [by eapply processCommandGroups_quiet|].
      unfold processHeaderGroups in Hpass.
      apply list_elem_of_split in Hin as (pre & post & Hsplit). rewrite Hsplit in Hpass.
      apply forOf_normal_split in Hpass as (t1 & t2 & _ & Hstep & Hpost).
      eapply headerLoop_staysCurrent; [exact Hpost|].
      by eapply headerGroupStep_sets.
    + eapply commandLoop_noCommandFor; [|exact Hrun].
      intros g' _ _ Ht' Heq. simpl in Heq, Ht', Ht. rewrite Heq in Ht'. congruence.
  - inversion Hrun; subst. by eapply headerLoop_noCommandFor.
Qed.

Lemma header_group_silences_commands_witness :
  ∃ evs,
    calls (snd (onMetadataChanged (referenceHost (λ _, Some Sample.statusFinal))
                  Sample.headingAndReload Sample.note Sample.seeded))
    = calls Sample.seeded ++ evs
    ∧ ∀ id, EvCommand (watchedField Sample.statusHeading) id ∉ evs.
Proof.
  apply (header_group_silences_commands
           (referenceHost (λ _, Some Sample.statusFinal)) Sample.headingAndReload
           Sample.note Sample.statusHeading Sample.seeded (Throw)).
  - apply list_elem_of_here.
  - reflexivity.
  - vm_compute. reflexivity.
Defined.

Lemma commandsFor_app f evs1 evs2 :
  commandsFor f (evs1 ++ evs2) = commandsFor f evs1 ++ commandsFor f evs2.
Proof. unfold commandsFor. apply flat_map_app. Qed.

Lemma commandsFor_none f evs :
  (∀ id, EvCommand f id ∉ evs) → commandsFor f evs = [].
Proof.
  induction evs as [|e evs IH]; intros Hno; [reflexivity|].
  unfold commandsFor in *. simpl. rewrite IH.
  - destruct e as [| |f' id]; try reflexivity.
    rewrite bool_decide_eq_false_2; [reflexivity|].
    intros ->. apply (Hno id). left.
  - intros id Hin. apply (Hno id). by right.
Qed.

(** Over a baseline that differs from the current value, an iteration of
    an active command group that returns has called the command once and
    stored the current value. *)
Lemma commandGroupStep_changed host file metadata g s s' previous :
  active g = true →
  truthy (getProp metadata (watchedField g)) = true →
  lastMetadataValues s !! cacheKey (path file) (watchedField g) = Some previous →
  previous ≠ getProp metadata (watchedField g) →
  previous ≠ VUndefined →
  commandGroupStep host file metadata g s = (Normal tt, s') →
  calls s' = calls s ++ [EvCommand (watchedField g) (command g)]
  ∧ lastMetadataValues s' !! cacheKey (path file) (watchedField g)
    = Some (getProp metadata (watchedField g)).
Proof.
  intros Ha Ht Hprev Hne Hdef Hrun. unfold commandGroupStep in Hrun.
  rewrite Ha, Ht in Hrun. cbn [andb] in Hrun. unfold bind, getLast in Hrun.
  replace (getProp (lastMetadataValues s) (cacheKey (path file) (watchedField g)))
    with previous in Hrun by (unfold getProp; by rewrite Hprev).
  unfold strictEquals in Hrun.
  rewrite !bool_decide_eq_false_2 in Hrun by congruence. cbn [negb] in Hrun.
  unfold executeCommandById in Hrun.
  destruct (commandFails host (command g)); [discriminate|].
  unfold setLast, logCall in Hrun. inversion Hrun. simpl.
  split; [reflexivity | apply lookup_insert_eq].
Qed.

(** X6.  A changed value calls the command exactly once.  Take an active
    command group whose field is truthy and differs from an existing
    baseline, with no active header group and no earlier active command
    group watching the same field.  A dispatch that returns has called,
    on behalf of that field, the command of this group and nothing else,
    and has stored the new value. *)
Theorem changed_value_fires_once host settings file metadata pre g post s s' previous :
  frontmatter host (path file) = Some metadata →
  commandGroups settings = pre ++ g :: post →
  active g = true →
  truthy (getProp metadata (watchedField g)) = true →
  lastMetadataValues s !! cacheKey (path file) (watchedField g) = Some previous →
  previous ≠ getProp metadata (watchedField g) →
  previous ≠ VUndefined →
  (∀ h : HeaderGroup, h ∈ headerGroups settings → active h = true →
     watchedField h ≠ watchedField g) →
  (∀ g' : CommandGroup, g' ∈ pre → active g' = true →
     watchedField g' ≠ watchedField g) →
  onMetadataChanged host settings file s = (Normal tt, s') →
  ∃ evs, calls s' = calls s ++ evs
         ∧ commandsFor (watchedField g) evs = [command g]
         ∧ lastMetadataValues s' !! cacheKey (path file) (watchedField g)
           = Some (getProp metadata (watchedField g)).
Proof.
  intros Hfm Hsplit Ha Ht Hprev Hne Hdef Hh Hpre Hrun.
  unfold onMetadataChanged in Hrun. rewrite Hfm in Hrun. unfold bind in Hrun.
  destruct (processHeaderGroups host settings file metadata s) as [[[]|] s0] eqn:Hpass;
    [|discriminate].
  unfold processCommandGroups in Hrun. rewrite Hsplit in Hrun.
  apply forOf_normal_split in Hrun as (s1 & s2 & Hrun1 & Hstep & Hrun2).
  assert (Hprev0 : lastMetadataValues s0 !! cacheKey (path file) (watchedField g)
                   = Some previous).
  { rewrite <- Hprev.
    eapply (loop_keepsEntry (headerGroupStep host file metadata) file metadata);
      [| exact Hh | exact Hpass].
    intros x t o t'. apply headerGroupStep_cacheStep. }
  assert (Hprev1 : lastMetadataValues s1 !! cacheKey (path file) (watchedField g)
                   = Some previous).
  { rewrite <- Hprev0.
    eapply (loop_keepsEntry (commandGroupStep host file metadata) file metadata);
      [| exact Hpre | exact Hrun1].
    intros x t o t'. apply commandGroupStep_cacheStep. }
  destruct (commandGroupStep_changed _ _ _ _ _ _ _ Ha Ht Hprev1 Hne Hdef Hstep)
    as [E2 Hcur2].
  destruct (headerLoop_noCommandFor _ _ _ (watchedField g) _ _ _ _ Hpass)
    as (evs0 & E0 & N0).
  destruct (commandLoop_noCommandFor host file metadata (watchedField g) pre s0
              (Normal tt) s1) as (evs1 & E1 & N1); [|exact Hrun1|].
  { intros g' Hin Ha' _. by apply Hpre. }
  assert (Hq : quietFor file metadata (watchedField g) s2 s').
  { revert Hrun2. apply forOf_rel; [apply _ ..|].
    intros x t o t' _ Hx. by eapply commandGroupStep_quiet. }
  destruct (Hq (or_intror Hcur2)) as (Hcur' & evs3 & E3 & N3).
  exists (evs0 ++ evs1 ++ [EvCommand (watchedField g) (command g)] ++ evs3).
  split; [|split].
  - rewrite E3, E2, E1, E0. by rewrite <- !app_assoc.
  - rewrite !commandsFor_app, (commandsFor_none _ evs0), (commandsFor_none _ evs1),
      (commandsFor_none _ evs3) by assumption.
    unfold commandsFor. simpl. by rewrite bool_decide_eq_true_2.
  - eapply commandLoop_staysCurrent; [exact Hrun2 | exact Hcur2].
Qed.

Lemma changed_value_fires_once_witness :
  ∃ evs,
    calls (snd (onMetadataChanged (referenceHost (λ _, Some Sample.statusFinal))
                  Sample.onlyReload Sample.note Sample.seeded))
    = calls Sample.seeded ++ evs
    ∧ commandsFor (watchedField Sample.reloadOnStatus) evs
      = [command Sample.reloadOnStatus]
    ∧ lastMetadataValues
        (snd (onMetadataChanged (referenceHost (λ _, Some Sample.statusFinal))
                Sample.onlyReload Sample.note Sample.seeded))
        !! cacheKey (path Sample.note) (watchedField Sample.reloadOnStatus)
      = Some (getProp Sample.statusFinal (watchedField Sample.reloadOnStatus)).
Proof.
  apply (changed_value_fires_once (referenceHost (λ _, Some Sample.statusFinal))
           Sample.onlyReload Sample.note Sample.statusFinal
           [] Sample.reloadOnStatus [] Sample.seeded _ (VStr (str "draft"))).
  - reflexivity.
  - reflexivity.
  - reflexivity.
  - reflexivity.
  - reflexivity.
  - vm_compute. discriminate.
  - discriminate.
  - intros h Hin. by apply not_elem_of_nil in Hin.
  - intros g' Hin. by apply not_elem_of_nil in Hin.
  - vm_compute. reflexivity.
Defined.

(* ===================================================================== *)
(** ** What the handlers keep *)
(* ===================================================================== *)

#[local] Instance cacheGrows_refl : Reflexive cacheGrows.
Proof. intros s. by split. Qed.

#[local] Instance cacheGrows_trans : Transitive cacheGrows.
Proof. intros a b c [H1 H2] [H3 H4]. split; auto. Qed.

Lemma cacheStep_grows `{WatchRule G} file metadata (g : G) s s' :
  cacheStep file metadata g s s' → cacheGrows s s'.
Proof.
  intros [Heq|(_ & Ht & Heq)]; unfold cacheGrows, truthyCache; rewrite Heq.
  - by split.
  - split.
    + intros k Hk. rewrite lookup_insert. by case_decide.
    + intros Hall k v. rewrite lookup_insert. case_decide.
      * intros [= <-]. exact Ht.
      * apply Hall.
Qed.

Lemma handlers_cacheGrows host settings file s out s' :
  onFileOpen host settings file s = (out, s')
  ∨ onMetadataChanged host settings file s = (out, s') →
  cacheGrows s s'.
Proof.
  intros [Hrun|Hrun].
  - unfold onFileOpen, updateLastMetadataValues in Hrun.
    destruct (frontmatter host (path file)) as [metadata|];
      [|inversion Hrun; reflexivity].
    revert Hrun. apply forOf_rel; [apply _ ..|].
    intros g t o t' _ Hg. apply (cacheStep_grows file metadata g).
    by eapply seedGroup_cacheStep.
  - unfold onMetadataChanged in Hrun.
    destruct (frontmatter host (path file)) as [metadata|];
      [|inversion Hrun; reflexivity].
    unfold bind in Hrun.
    assert (Hh : ∀ t o t', processHeaderGroups host settings file metadata t = (o, t') →
                           cacheGrows t t').
    { intros t o t'. apply forOf_rel; [apply _ ..|].
      intros g u o' u' _ Hg. apply (cacheStep_grows file metadata g).
      by eapply headerGroupStep_cacheStep. }
    destruct (processHeaderGroups host settings file metadata s) as [[[]|] s0] eqn:Hpass.
    + transitivity s0; [by eapply Hh|].
      revert Hrun. apply forOf_rel; [apply _ ..|].
      intros g u o' u' _ Hg. apply (cacheStep_grows file metadata g).
      by eapply commandGroupStep_cacheStep.
    + inversion Hrun; subst. by eapply Hh.
Qed.

(** X7.  No handler removes a baseline: a key that has an entry before an
    open event or a metadata change has one afterwards, however the
    handler ends. *)
Theorem baselines_are_never_removed host settings file s out s' k :
  onFileOpen host settings file s = (out, s')
  ∨ onMetadataChanged host settings file s = (out, s') →
  is_Some (lastMetadataValues s !! k) →
  is_Some (lastMetadataValues s' !! k).
Proof. intros Hrun. by apply (handlers_cacheGrows host settings file s out s'). Qed.

Lemma baselines_are_never_removed_witness :
  is_Some (lastMetadataValues
             (snd (onMetadataChanged (referenceHost (λ _, Some Sample.statusFinal))
                     Sample.onlyReload Sample.note Sample.seeded))
             !! str "notes/a.md-status").
Proof.
  apply (baselines_are_never_removed (referenceHost (λ _, Some Sample.statusFinal))
           Sample.onlyReload Sample.note Sample.seeded (Normal tt)).
  - right. vm_compute. reflexivity.
  - by eexists.
Defined.

(** X8.  The cache only ever receives truthy values: if every stored
    baseline is truthy before an open event or a metadata change, every
    stored baseline is truthy afterwards.  From an empty cache, then, an
    entry is never [undefined], and the test [previousValue !== undefined]
    of the command pass is the test that an entry exists. *)
Theorem baselines_are_truthy host settings file s out s' :
  onFileOpen host settings file s = (out, s')
  ∨ onMetadataChanged host settings file s = (out, s') →
  truthyCache s → truthyCache s'.
Proof. intros Hrun. by apply (handlers_cacheGrows host settings file s out s'). Qed.

Lemma baselines_are_truthy_witness :
  truthyCache (snd (onMetadataChanged (referenceHost (λ _, Some Sample.statusFinal))
                      Sample.onlyReload Sample.note Sample.emptyState)).
Proof.
  apply (baselines_are_truthy (referenceHost (λ _, Some Sample.statusFinal))
           Sample.onlyReload Sample.note Sample.emptyState (Normal tt)).
  - right. vm_compute. reflexivity.
  - intros k v Hk. simpl in Hk. by rewrite lookup_empty in Hk.
Defined.

(** *** Groups that are switched off *)

Lemma seedGroup_inactive `{WatchRule G} file metadata (g : G) s :
  active g = false → seedGroup file metadata g s = (Normal tt, s).
Proof. intros Ha. unfold seedGroup. by rewrite Ha. Qed.

Lemma headerGroupStep_inactive host file metadata g s :
  active g = false → headerGroupStep host file metadata g s = (Normal tt, s).
Proof. intros Ha. unfold headerGroupStep. by rewrite Ha. Qed.

Lemma commandGroupStep_inactive host file metadata g s :
  active g = false → commandGroupStep host file metadata g s = (Normal tt, s).
Proof. intros Ha. unfold commandGroupStep. by rewrite Ha. Qed.

(** X9.  A group that is switched off behaves as a group that has been
    removed: a metadata change and an open event run the same, from every
    state, with the inactive groups deleted from the settings. *)
Theorem inactive_groups_are_as_removed host settings file s :
  onMetadataChanged host (dropInactive settings) file s
  = onMetadataChanged host settings file s
  ∧ onFileOpen host (dropInactive settings) file s
    = onFileOpen host settings file s.
Proof.
  unfold onFileOpen, updateLastMetadataValues, onMetadataChanged.
  destruct (frontmatter host (path file)) as [metadata|]; [|by split]. split.
  - unfold bind, processHeaderGroups, processCommandGroups, dropInactive.
    cbn [headerGroups commandGroups].
    rewrite forOf_filter by (intros; by apply headerGroupStep_inactive).
    destruct (forOf (headerGroups settings) _ s) as [[[]|] s1]; [|reflexivity].
    apply forOf_filter. intros. by apply commandGroupStep_inactive.
  - unfold dropInactive. cbn [headerGroups commandGroups].
    rewrite <- (filter_fmap inl active active) by reflexivity.
    rewrite <- (filter_fmap inr active active) by reflexivity.
    rewrite <- List.filter_app.
    apply forOf_filter. intros. by apply seedGroup_inactive.
Qed.

(* ===================================================================== *)
(** ** What a handler touches, and in which order *)
(* ===================================================================== *)

#[local] Instance localTo_refl p : Reflexive (localTo p).
Proof.
  intros s. repeat split; try done. exists []. split; [by rewrite app_nil_r | constructor].
Qed.

#[local] Instance localTo_trans p : Transitive (localTo p).
Proof.
  intros a b c (V1 & C1 & evs1 & E1 & F1) (V2 & C2 & evs2 & E2 & F2). repeat split.
  - intros q Hq. by rewrite V2, V1.
  - intros k Hk. by rewrite C2, C1.
  - exists (evs1 ++ evs2). split; [by rewrite E2, E1, app_assoc | by apply Forall_app].
Qed.

Lemma cacheStep_local `{WatchRule G} file metadata (g : G) s s' k :
  cacheStep file metadata g s s' →
  (∀ f, k ≠ cacheKey (path file) f) →
  lastMetadataValues s' !! k = lastMetadataValues s !! k.
Proof.
  intros [->|(_ & _ & ->)] Hk; [reflexivity|].
  apply lookup_insert_ne. intros Heq. by apply (Hk (watchedField g)).
Qed.

(** An iteration of a header group that returns has either left the vault
    and the trace alone, or read the document and written one text. *)
Lemma headerGroupStep_shape host file metadata g s s' :
  headerGroupStep host file metadata g s = (Normal tt, s') →
  (calls s' = calls s ∧ vault s' = vault s)
  ∨ ∃ text, calls s' = calls s ++ [EvRead (path file); EvModify (path file) text]
            ∧ vault s' = <[path file := text]> (vault s).
Proof.
  intros Hrun. run_step. split_cases; try by left.
  right. eexists. split; [by rewrite <- app_assoc | reflexivity].
Qed.

Lemma headerGroupStep_local host file metadata g s out s' :
  headerGroupStep host file metadata g s = (out, s') → localTo (path file) s s'.
Proof.
  intros Hrun. split; [|split].
  - intros q Hq. run_step. split_cases; try reflexivity. by apply lookup_insert_ne.
  - intros k Hk. apply (cacheStep_local file metadata g); [|exact Hk].
    by eapply headerGroupStep_cacheStep.
  - run_step. split_cases.
    all: try (exists []; split; [by rewrite app_nil_r | constructor]).
    all: try (eexists [_]; split; [reflexivity | by repeat constructor]).
    all: eexists [_; _]; split; [by rewrite <- app_assoc | by repeat constructor].
Qed.

Lemma commandGroupStep_local host file metadata g s out s' :
  commandGroupStep host file metadata g s = (out, s') →
  localTo (path file) s s' ∧ vault s' = vault s.
Proof.
  intros Hrun. split; [split; [|split]|].
  - intros q Hq. run_step. by split_cases.
  - intros k Hk. apply (cacheStep_local file metadata g); [|exact Hk].
    by eapply commandGroupStep_cacheStep.
  - destruct (commandGroupStep_events _ _ _ _ _ _ _ Hrun) as [E|(E & _)].
    + exists []. split; [by rewrite app_nil_r | constructor].
    + eexists. split; [exact E | by repeat constructor].
  - run_step. by split_cases.
Qed.

Lemma seedGroup_local `{WatchRule G} file metadata (g : G) s out s' :
  seedGroup file metadata g s = (out, s') → localTo (path file) s s'.
Proof.
  intros Hrun. split; [|split].
  - intros q Hq. run_step. by split_cases.
  - intros k Hk. apply (cacheStep_local file metadata g); [|exact Hk].
    by eapply seedGroup_cacheStep.
  - exists []. split; [|constructor]. run_step. split_cases; by rewrite app_nil_r.
Qed.

(** X10.  An open event or a metadata change for a document stays with
    that document: the text of every other document is left as it was,
    the vault is read and written for this document only, and the only
    cache entries that can change are those whose key is this document's
    path, a hyphen and a field name. *)
Theorem handlers_are_local host settings file s out s' :
  onFileOpen host settings file s = (out, s')
  ∨ onMetadataChanged host settings file s = (out, s') →
  localTo (path file) s s'.
Proof.
  intros [Hrun|Hrun].
  - unfold onFileOpen, updateLastMetadataValues in Hrun.
    destruct (frontmatter host (path file)) as [metadata|];
      [|inversion Hrun; reflexivity].
    revert Hrun. apply forOf_rel; [apply _ ..|].
    intros g t o t' _ Hg. exact (seedGroup_local file metadata g t o t' Hg).
  - unfold onMetadataChanged in Hrun.
    destruct (frontmatter host (path file)) as [metadata|];
      [|inversion Hrun; reflexivity].
    unfold bind in Hrun.
    assert (Hh : ∀ t o t', processHeaderGroups host settings file metadata t = (o, t') →
                           localTo (path file) t t').
    { intros t o t'. apply forOf_rel; [apply _ ..|].
      intros g u o' u' _ Hg. by eapply headerGroupStep_local. }
    destruct (processHeaderGroups host settings file metadata s) as [[[]|] s0] eqn:Hpass.
    + transitivity s0; [by eapply Hh|].
      revert Hrun. apply forOf_rel; [apply _ ..|].
      intros g u o' u' _ Hg. by eapply commandGroupStep_local.
    + inversion Hrun; subst. by eapply Hh.
Qed.

Lemma handlers_are_local_witness :
  localTo (path Sample.note) Sample.statusNote
    (snd (onMetadataChanged (referenceHost (λ _, Some Sample.statusDraft))
            Sample.headingAndReload Sample.note Sample.statusNote)).
Proof.
  apply (handlers_are_local (referenceHost (λ _, Some Sample.statusDraft))
           Sample.headingAndReload Sample.note Sample.statusNote (Normal tt)).
  right. vm_compute. reflexivity.
Defined.

Lemma written_cons (p text : jsstring) (texts : list jsstring)
    (v : gmap jsstring jsstring) :
  written p (text :: texts) v = written p texts (<[p := text]> v).
Proof.
  unfold written. destruct texts as [|t texts]; [reflexivity|].
  rewrite last_cons. destruct (last (t :: texts)) as [t'|] eqn:Hlast.
  - by rewrite insert_insert_eq.
  - by apply last_None in Hlast.
Qed.

Lemma headerLoop_shape host file metadata gs s s' :
  forOf gs (headerGroupStep host file metadata) s = (Normal tt, s') →
  ∃ texts, calls s' = calls s ++ rewriteCalls (path file) texts
           ∧ (length texts ≤ length gs)%nat
           ∧ vault s' = written (path file) texts (vault s).
Proof.
  revert s. induction gs as [|g gs IH]; intros s Hrun; simpl in Hrun.
  - inversion Hrun. exists []. by rewrite app_nil_r.
  - unfold bind in Hrun.
    destruct (headerGroupStep host file metadata g s) as [[[]|] s1] eqn:Hg;
      [|discriminate].
    destruct (IH _ Hrun) as (texts & E & L & V).
    destruct (headerGroupStep_shape _ _ _ _ _ _ Hg) as [[E1 V1]|(text & E1 & V1)].
    + exists texts. rewrite E, E1, V, V1. repeat split; [simpl; lia].
    + exists (text :: texts). rewrite E, E1, V, V1, written_cons.
      repeat split; [by rewrite <- app_assoc | simpl; lia].
Qed.

Lemma commandLoop_shape host file metadata gs s s' :
  forOf gs (commandGroupStep host file metadata) s = (Normal tt, s') →
  ∃ cmds, calls s' = calls s ++ cmds
          ∧ Forall isCommandCall cmds
          ∧ (length cmds ≤ length gs)%nat
          ∧ vault s' = vault s.
Proof.
  revert s. induction gs as [|g gs IH]; intros s Hrun; simpl in Hrun.
  - inversion Hrun. exists []. by rewrite app_nil_r.
  - unfold bind in Hrun.
    destruct (commandGroupStep host file metadata g s) as [[[]|] s1] eqn:Hg;
      [|discriminate].
    destruct (IH _ Hrun) as (cmds & E & F & L & V).
    destruct (commandGroupStep_local _ _ _ _ _ _ _ Hg) as [_ V1].
    destruct (commandGroupStep_events _ _ _ _ _ _ _ Hg) as [E1|(E1 & _)].
    + exists cmds. rewrite E, E1, V, V1. repeat split; [exact F | simpl; lia].
    + exists (EvCommand (watchedField g) (command g) :: cmds).
      rewrite E, E1, V, V1. repeat split.
      * by rewrite <- app_assoc.
      * by constructor.
      * simpl; lia.
Qed.

(** X11.  The calls of a dispatch that returns come in two blocks.  First
    the rewrites, at most one for each header group, each a read of the
    document followed at once by a write of it; then the command calls, at
    most one for each command group.  The document ends up with the last
    text written, and is untouched when nothing was written. *)
Theorem dispatch_rewrites_then_commands host settings file s s' :
  onMetadataChanged host settings file s = (Normal tt, s') →
  ∃ texts cmds,
    calls s' = calls s ++ rewriteCalls (path file) texts ++ cmds
    ∧ Forall isCommandCall cmds
    ∧ (length texts ≤ length (headerGroups settings))%nat
    ∧ (length cmds ≤ length (commandGroups settings))%nat
    ∧ vault s' = written (path file) texts (vault s).
Proof.
  intros Hrun. unfold onMetadataChanged in Hrun.
  destruct (frontmatter host (path file)) as [metadata|].
  - unfold bind in Hrun.
    destruct (processHeaderGroups host settings file metadata s) as [[[]|] s0] eqn:Hpass;
      [|discriminate].
    destruct (headerLoop_shape _ _ _ _ _ _ Hpass) as (texts & E0 & L0 & V0).
    destruct (commandLoop_shape _ _ _ _ _ _ Hrun) as (cmds & E1 & F1 & L1 & V1).
    exists texts, cmds. rewrite E1, E0, V1, V0. by rewrite <- app_assoc.
  - inversion Hrun. exists [], []. simpl. rewrite app_nil_r.
    repeat split; [constructor | lia | lia].
Qed.

Lemma dispatch_rewrites_then_commands_witness :
  ∃ texts cmds,
    calls (snd (onMetadataChanged (referenceHost (λ _, Some Sample.statusDraft))
                  Sample.headingAndReload Sample.note Sample.statusNote))
    = calls Sample.statusNote ++ rewriteCalls (path Sample.note) texts ++ cmds
    ∧ Forall isCommandCall cmds
    ∧ (length texts ≤ length (headerGroups Sample.headingAndReload))%nat
    ∧ (length cmds ≤ length (commandGroups Sample.headingAndReload))%nat
    ∧ vault (snd (onMetadataChanged (referenceHost (λ _, Some Sample.statusDraft))
                    Sample.headingAndReload Sample.note Sample.statusNote))
      = written (path Sample.note) texts (vault Sample.statusNote).
Proof.
  apply (dispatch_rewrites_then_commands
           (referenceHost (λ _, Some Sample.statusDraft))
           Sample.headingAndReload Sample.note Sample.statusNote).
  vm_compute. reflexivity.
Defined.

(* ===================================================================== *)
(** ** Start-up *)
(* ===================================================================== *)

#[local] Instance keeps_refl P : Reflexive (keeps P).
Proof. intros s Hs. exact Hs. Qed.

#[local] Instance keeps_trans P : Transitive (keeps P).
Proof. intros a b c Hab Hbc Ha. by apply Hbc, Hab. Qed.

Lemma updateLastMetadataValues_returns host settings file s :
  ∃ s', updateLastMetadataValues host settings file s = (Normal tt, s') ∧ silent s s'.
Proof.
  unfold updateLastMetadataValues.
  destruct (frontmatter host (path file)) as [metadata|].
  - destruct (seedLoop_returns file metadata
                ((inl <$> headerGroups settings) ++ (inr <$> commandGroups settings)) s)
      as [s' Hrun].
    exists s'. split; [exact Hrun|].
    exact (seedLoop_silent file metadata _ s (Normal tt) s' Hrun).
  - exists s. by split.
Qed.

Lemma watchedFields_sum settings (g : HeaderGroup + CommandGroup) :
  g ∈ (inl <$> headerGroups settings) ++ (inr <$> commandGroups settings) →
  watchedField g ∈ watchedFields settings.
Proof.
  intros Hg. unfold watchedFields. apply elem_of_app.
  apply elem_of_app in Hg as [Hg|Hg];
    apply list_elem_of_fmap in Hg as (g0 & -> & Hg0); [left | right].
  - exact (list_elem_of_fmap_2 (watchedField (G := HeaderGroup)) _ g0 Hg0).
  - exact (list_elem_of_fmap_2 (watchedField (G := CommandGroup)) _ g0 Hg0).
Qed.

(** Seeding another document keeps the baselines of this one, as long as
    the keys of the two documents do not collide. *)
Lemma updateLastMetadataValues_keeps_baselined host settings file metadata file' s out s' :
  frontmatter host (path file) = Some metadata →
  (∀ f f', f ∈ watchedFields settings → f' ∈ watchedFields settings →
           cacheKey (path file') f' = cacheKey (path file) f →
           path file' = path file) →
  updateLastMetadataValues host settings file' s = (out, s') →
  baselined settings file metadata s → baselined settings file metadata s'.
Proof.
  intros Hfm Hkeys Hrun. unfold updateLastMetadataValues in Hrun.
  destruct (frontmatter host (path file')) as [metadata'|] eqn:Hfm';
    [|by inversion Hrun].
  assert (Hkeep : ∀ f, f ∈ watchedFields settings →
            lastMetadataValues s !! cacheKey (path file) f = Some (getProp metadata f) →
            lastMetadataValues s' !! cacheKey (path file) f = Some (getProp metadata f)).
  { intros f Hf. revert Hrun.
    apply (forOf_rel (seedGroup file' metadata')
             (keeps (λ a, lastMetadataValues a !! cacheKey (path file) f
                          = Some (getProp metadata f)))).
    intros g t o t' Hg Hstep Ht.
    { 
      destruct (seedGroup_cacheStep _ _ _ _ _ _ Hstep) as [->|(_ & _ & ->)];
        [exact Ht|].
      destruct (decide (cacheKey (path file') (watchedField g) = cacheKey (path file) f))
        as [Heq|Hne].
      + pose proof (Hkeys f (watchedField g) Hf (watchedFields_sum _ _ Hg) Heq) as Hp.
        rewrite Hp in Heq, Hfm'. apply cacheKey_same_path in Heq.
        rewrite Hfm in Hfm'. injection Hfm' as <-.
        rewrite Hp, Heq. apply lookup_insert_eq.
      + by rewrite lookup_insert_ne. } }
  intros [Hh Hc]. split; intros g Hg Ha Ht; apply Hkeep; auto.
  - unfold watchedFields. apply elem_of_app. left. by apply list_elem_of_fmap_2.
  - unfold watchedFields. apply elem_of_app. right. by apply list_elem_of_fmap_2.
Qed.

(** X12.  Start-up baselines every document silently.  Seeding the listed
    documents returns, calls nothing and changes no document.  For a
    listed document whose cache keys collide with those of no other listed
    document, every active group with a truthy field then has the
    document's value as baseline, so that a first metadata change with the
    snapshot unchanged does nothing. *)
Theorem startup_baselines_documents host settings files file metadata s :
  file ∈ files →
  frontmatter host (path file) = Some metadata →
  (∀ file' f f', file' ∈ files →
     f ∈ watchedFields settings → f' ∈ watchedFields settings →
     cacheKey (path file') f' = cacheKey (path file) f →
     path file' = path file) →
  ∃ s', initializeLastMetadataValues host settings files s = (Normal tt, s')
        ∧ calls s' = calls s ∧ vault s' = vault s
        ∧ baselined settings file metadata s'
        ∧ onMetadataChanged host settings file s' = (Normal tt, s').
Proof.
  intros Hin Hfm Hkeys. unfold initializeLastMetadataValues.
  destruct (forOf_returns (updateLastMetadataValues host settings) (λ _, True) files)
    with (s := s) as (s' & Hrun & _); [|exact I|].
  { intros f t _ _. destruct (updateLastMetadataValues_returns host settings f t)
      as (t' & Ht & _). by exists t'. }
  exists s'. split; [exact Hrun|].
  assert (Hsilent : silent s s').
  { revert Hrun. apply forOf_rel; [apply _ ..|].
    intros f t o t' _ Hf.
    destruct (updateLastMetadataValues_returns host settings f t) as (t'' & Ht & Hs).
    rewrite Hf in Ht. by injection Ht as _ ->. }
  destruct Hsilent as [Hcalls Hvault]. split; [exact Hcalls|]. split; [exact Hvault|].
  assert (Hbase : baselined settings file metadata s').
  { apply list_elem_of_split in Hin as (pre & post & Hsplit).
    assert (Hpost : ∀ file', file' ∈ post → file' ∈ files).
    { intros file' Hf. rewrite Hsplit. apply elem_of_app. right. by right. }
    rewrite Hsplit in Hrun.
    apply forOf_normal_split in Hrun as (t1 & t2 & _ & Hfile & Hrest).
    destruct (onFileOpen_baselines host settings file metadata t1 Hfm)
      as (t2' & Hopen & _ & _ & Hb2).
    unfold onFileOpen in Hopen. rewrite Hfile in Hopen. injection Hopen as <-.
    revert Hrest Hb2.
    apply (forOf_rel (updateLastMetadataValues host settings)
             (keeps (baselined settings file metadata))).
    intros file' t o t' Hf Hstep Hb.
    eapply updateLastMetadataValues_keeps_baselined;
      [exact Hfm | | exact Hstep | exact Hb].
    intros f f'. apply Hkeys. by apply Hpost. }
  split; [exact Hbase|]. by apply (dispatch_of_baselined host settings file metadata).
Qed.

Lemma startup_baselines_documents_witness :
  ∃ s', initializeLastMetadataValues (referenceHost (λ _, Some Sample.statusDraft))
          Sample.headingAndReload [Sample.note] Sample.statusNote = (Normal tt, s')
        ∧ calls s' = calls Sample.statusNote ∧ vault s' = vault Sample.statusNote
        ∧ baselined Sample.headingAndReload Sample.note Sample.statusDraft s'
        ∧ onMetadataChanged (referenceHost (λ _, Some Sample.statusDraft))
            Sample.headingAndReload Sample.note s' = (Normal tt, s').
Proof.
  apply (startup_baselines_documents (referenceHost (λ _, Some Sample.statusDraft))
           Sample.headingAndReload [Sample.note] Sample.note Sample.statusDraft
           Sample.statusNote).
  - apply list_elem_of_here.
  - reflexivity.
  - intros file' f f' Hin _ _ _. apply list_elem_of_singleton in Hin. by subst.
Defined.

(* ===================================================================== *)
(** ** Rewriting twice *)
(* ===================================================================== *)

Lemma terminatorFree_app l1 l2 :
  terminatorFree (l1 ++ l2) ↔ terminatorFree l1 ∧ terminatorFree l2.
Proof. apply Forall_app. Qed.

(** A text either has no line that starts with the header, or has a first
    one. *)
Lemma lines_cases header (ls : list (jsstring * N)) (l : jsstring) :
  Forall (λ p, terminatorFree p.1 ∧ isLineTerminator p.2 = true) ls →
  terminatorFree l →
  (Forall (otherLine header) ls ∧ ¬ header `prefix_of` l)
  ∨ ∃ earlier tail rest,
      unlines ls ++ l = unlines earlier ++ header ++ tail ++ rest
      ∧ Forall (otherLine header) earlier
      ∧ terminatorFree tail
      ∧ (rest = [] ∨ ∃ t r, rest = t :: r ∧ isLineTerminator t = true).
Proof.
  intros Hls Hl. induction Hls as [|[l0 t0] ls [Hl0 Ht0] Hls IH]; simpl in *.
  - destruct (decide (header `prefix_of` l)) as [[k ->]|Hno].
    + right. exists [], k, []. apply terminatorFree_app in Hl as [_ Hk].
      repeat split; [by rewrite app_nil_r | constructor | exact Hk | by left].
    + left. by split.
  - destruct (decide (header `prefix_of` l0)) as [[k ->]|Hno].
    + right. exists [], k, (t0 :: unlines ls ++ l).
      apply terminatorFree_app in Hl0 as [_ Hk].
      repeat split; [| constructor | exact Hk | right; by eexists _, _].
      rewrite unlines_cons. simpl. by rewrite <- !app_assoc.
    + destruct IH as [[Hall Hlast]|(earlier & tail & rest & Heq & Hall & Htail & Hrest)].
      * left. split; [|exact Hlast]. constructor; [|exact Hall]. by repeat split.
      * right. exists ((l0, t0) :: earlier), tail, rest.
        repeat split; [| | exact Htail | exact Hrest].
        -- rewrite !unlines_cons, <- !app_assoc. by rewrite Heq.
        -- constructor; [|exact Hall]. by repeat split.
Qed.

Lemma replaceHeader_found host header v text earlier tail rest :
  conforming host →
  plainHeader header = true →
  toString host v = Some text →
  36 ∉ text →
  Forall (otherLine header) earlier →
  terminatorFree tail →
  rest = [] ∨ (∃ t r, rest = t :: r ∧ isLineTerminator t = true) →
  replaceHeaderWithMetadataValue host
    (unlines earlier ++ header ++ tail ++ rest) header v
  = Some (unlines earlier ++ header ++ (str " " ++ text) ++ rest).
Proof.
  intros Hhost Hp Htext Hv Hearlier Htail Hrest.
  rewrite (replaceHeader_conforming host _ header v text)
    by (try apply plainHeader_inFragment; assumption).
  rewrite replaceFirst_found by assumption.
  rewrite getSubstitution_header_value by assumption.
  by rewrite <- !app_assoc.
Qed.

(** X13.  Rewriting is idempotent on plain input.  For a header without
    pattern syntax characters and a value whose string form has neither
    [$] nor a line terminator, the rewrite of any text succeeds, and
    rewriting its result again with the same header and value changes
    nothing. *)
Theorem rewrite_is_idempotent host content header v text :
  conforming host →
  plainHeader header = true →
  toString host v = Some text →
  36 ∉ text →
  terminatorFree text →
  ∃ once,
    replaceHeaderWithMetadataValue host content header v = Some once
    ∧ replaceHeaderWithMetadataValue host once header v = Some once.
Proof.
  intros Hhost Hp Htext Hv Hfree.
  destruct (splitLines_spec content) as (Hsplit & Hls & Hlast).
  rewrite Hsplit.
  destruct (lines_cases header _ _ Hls Hlast)
    as [[Hall Hno]|(earlier & tail & rest & -> & Hall & Htail & Hrest)].
  - exists (unlines (splitLines content).1 ++ (splitLines content).2).
    assert (Hsame : replaceHeaderWithMetadataValue host
                      (unlines (splitLines content).1 ++ (splitLines content).2)
                      header v
                    = Some (unlines (splitLines content).1 ++ (splitLines content).2)).
    { rewrite (replaceHeader_conforming host _ header v text)
        by (try apply plainHeader_inFragment; assumption).
      by rewrite replaceFirst_not_found. }
    by split.
  - exists (unlines earlier ++ header ++ (str " " ++ text) ++ rest).
    split; [by apply replaceHeader_found|].
    apply replaceHeader_found; try assumption.
    apply terminatorFree_app. split; [by repeat constructor | exact Hfree].
Qed.

Lemma rewrite_is_idempotent_witness :
  ∃ once,
    replaceHeaderWithMetadataValue Sample.bare
      (str "## Status old" ++ 10 :: str "## State old") (str "## Status")
      (VStr (str "draft")) = Some once
    ∧ replaceHeaderWithMetadataValue Sample.bare once (str "## Status")
        (VStr (str "draft")) = Some once.
Proof.
  apply (rewrite_is_idempotent Sample.bare
           (str "## Status old" ++ 10 :: str "## State old") (str "## Status")
           (VStr (str "draft")) (str "draft")).
  - apply referenceHost_conforming.
  - reflexivity.
  - reflexivity.
  - apply (bool_decide_unpack _). vm_compute. exact I.
  - apply (bool_decide_unpack _). vm_compute. exact I.
Defined.

(* ===================================================================== *)
(** ** The command picker *)
(* ===================================================================== *)

Lemma fuzzyMatch_nonneg text query : (0 ≤ fuzzyMatch text query)%Z.
Proof.
  unfold fuzzyMatch, indexOf, MAX_SAFE_INTEGER.
  destruct (firstOccurrence text query) as [i|]; simpl.
  - destruct (Z.ltb_spec (-1) (Z.of_nat i)); lia.
  - lia.
Qed.

Lemma scoreItems_all_kept rt items q :
  List.filter (λ m, (-1 <? score m)%Z) (scoreItems rt items q) = scoreItems rt items q.
Proof.
  unfold scoreItems. induction items as [|i items IH]; [reflexivity|].
  rewrite fmap_cons. cbn [List.filter score]. rewrite IH.
  pose proof (fuzzyMatch_nonneg (normalizeText rt (cmd_name i)) q) as Hpos.
  destruct (Z.ltb_spec (-1) (fuzzyMatch (normalizeText rt (cmd_name i)) q));
    [reflexivity | lia].
Qed.

Lemma scoreItems_items rt items q : item <$> scoreItems rt items q = items.
Proof.
  unfold scoreItems. rewrite <- list_fmap_compose.
  induction items as [|i items IH]; [reflexivity|]. rewrite fmap_cons. by rewrite IH.
Qed.

Lemma insertSorted_perm {A} (compare : A → A → Z) x l :
  insertSorted compare x l ≡ₚ x :: l.
Proof.
  induction l as [|y ys IH]; simpl; [reflexivity|].
  destruct (compare x y <=? 0)%Z; [reflexivity|].
  rewrite IH. apply Permutation_swap.
Qed.

Lemma sortWith_perm {A} (compare : A → A → Z) l : sortWith compare l ≡ₚ l.
Proof.
  induction l as [|x l IH]; simpl; [reflexivity|].
  rewrite insertSorted_perm. by rewrite IH.
Qed.

(** X14.  The picker never drops a command.  [fuzzyMatch] returns a
    position or [MAX_SAFE_INTEGER], never a negative number, so the filter
    [score > -1] keeps everything: the suggestions are all the commands of
    the registry, in some order, whatever the query. *)
Theorem getSuggestions_keeps_every_command rt items query :
  item <$> getSuggestions rt items query ≡ₚ items.
Proof.
  unfold getSuggestions. rewrite scoreItems_all_kept.
  rewrite sortWith_perm. by rewrite scoreItems_items.
Qed.

Lemma insertSorted_sorted x l :
  StronglySorted (λ a b, (score a ≤ score b)%Z) l →
  StronglySorted (λ a b, (score a ≤ score b)%Z)
    (insertSorted (λ a b, (score a - score b)%Z) x l).
Proof.
  induction l as [|y ys IH]; intros Hl; simpl.
  - repeat constructor.
  - apply StronglySorted_inv in Hl as [Hys Hy].
    destruct (Z.leb_spec (score x - score y) 0) as [Hle|Hgt].
    + constructor; [by constructor|].
      constructor; [lia|]. eapply Forall_impl; [exact Hy|]. simpl. intros; lia.
    + constructor; [by apply IH|].
      rewrite insertSorted_perm. constructor; [lia | exact Hy].
Qed.

(** X15.  The suggestions come in the order of their scores, lowest
    first: commands whose name contains the query near its start come
    before those that contain it later, and those that do not contain it
    come last. *)
Theorem getSuggestions_in_score_order rt items query :
  StronglySorted (λ a b, (score a ≤ score b)%Z) (getSuggestions rt items query).
Proof.
  unfold getSuggestions, sortWith.
  induction (List.filter _ _) as [|m l IH]; simpl; [constructor|].
  by apply insertSorted_sorted.
Qed.

Lemma insertSorted_same_score z x l :
  List.filter (λ m, (score m =? z)%Z) (insertSorted (λ a b, (score a - score b)%Z) x l)
  = List.filter (λ m, (score m =? z)%Z) (x :: l).
Proof.
  induction l as [|y ys IH]; [reflexivity|]. cbn [insertSorted].
  destruct (Z.leb_spec (score x - score y) 0) as [Hle|Hgt]; [reflexivity|].
  cbn [List.filter] in *. rewrite IH.
  destruct (Z.eqb_spec (score x) z) as [Hx|Hx]; [|reflexivity].
  destruct (Z.eqb_spec (score y) z) as [Hy|Hy]; [lia | reflexivity].
Qed.

(** X16.  The order of the registry breaks ties: for every score, the
    suggestions with that score are in the order in which the registry
    lists their commands. *)
Theorem getSuggestions_keeps_registry_order rt items query z :
  List.filter (λ m, (score m =? z)%Z) (getSuggestions rt items query)
  = List.filter (λ m, (score m =? z)%Z)
      (scoreItems rt items (normalizeText rt query)).
Proof.
  unfold getSuggestions. rewrite scoreItems_all_kept. unfold sortWith.
  induction (scoreItems rt items (normalizeText rt query)) as [|m l IH];
    [reflexivity|].
  cbn [foldr]. rewrite insertSorted_same_score. cbn [List.filter]. by rewrite IH.
Qed.

Lemma firstOccurrence_empty text : firstOccurrence text [] = Some O.
Proof.
  destruct text; cbn [firstOccurrence];
    by rewrite bool_decide_eq_true_2 by apply prefix_nil.
Qed.

Lemma sortWith_ties (l : list Suggestion) z :
  Forall (λ m, score m = z) l →
  sortWith (λ a b, (score a - score b)%Z) l = l.
Proof.
  induction 1 as [|m l Hm Hl IH]; [reflexivity|].
  unfold sortWith in *. cbn [foldr]. rewrite IH.
  destruct Hl as [|m' l Hm' Hl]; [reflexivity|]. cbn [insertSorted].
  destruct (Z.leb_spec (score m - score m') 0); [reflexivity | lia].
Qed.

(** X17.  With an empty query every command scores 0, and the picker
    lists the whole registry in its own order. *)
Theorem getSuggestions_empty_query rt items :
  normalizeText rt [] = [] →
  getSuggestions rt items [] = (λ i, {| item := i; score := 0 |}) <$> items.
Proof.
  intros Hempty. unfold getSuggestions. rewrite scoreItems_all_kept, Hempty.
  assert (Hscores : scoreItems rt items []
                    = (λ i, {| item := i; score := 0 |}) <$> items).
  { unfold scoreItems. apply list_fmap_ext. intros _ i _.
    unfold fuzzyMatch, indexOf. by rewrite firstOccurrence_empty. }
  rewrite Hscores. apply (sortWith_ties _ 0%Z).
  apply Forall_fmap, Forall_forall. by intros.
Qed.

Lemma getSuggestions_empty_query_witness :
  getSuggestions Sample.plainRuntime Sample.registry []
  = (λ i, {| item := i; score := 0 |}) <$> Sample.registry.
Proof.
  apply (getSuggestions_empty_query Sample.plainRuntime Sample.registry).
  reflexivity.
Defined.

(** *** Escaping a query *)

Lemma isEscapedClass_identity c : isEscapedClass c = true → isIdentityEscape c = true.
Proof.
  unfold isEscapedClass, isIdentityEscape. intros H.
  apply orb_prop in H as [H|H]; [|by rewrite H, orb_true_r].
  apply bool_decide_eq_true in H.
  repeat (apply elem_of_cons in H as [->|H]; [by vm_compute|]).
  by apply not_elem_of_nil in H.
Qed.

Lemma isEscapedClass_plain c :
  isEscapedClass c = false → (c =? 92) = false ∧ isSyntaxCharacter c = false.
Proof.
  intros H. split.
  - destruct (N.eqb_spec c 92) as [->|]; [by vm_compute in H | reflexivity].
  - destruct (isSyntaxCharacter c) eqn:Hs; [|reflexivity].
    unfold isSyntaxCharacter in Hs. apply bool_decide_eq_true in Hs.
    repeat (apply elem_of_cons in Hs as [->|Hs]; [by vm_compute in H|]).
    by apply not_elem_of_nil in Hs.
Qed.

(** X18.  An escaped query is a literal pattern for the query: whatever
    the text, [escapeRegExp] returns a pattern made only of plain
    characters and identity escapes, and the text this pattern matches is
    the text that was escaped.  No character of the query keeps a meaning
    of its own in the pattern. *)
Theorem escapeRegExp_denotes_text text :
  literalOfPattern (escapeRegExp text) = Some text.
Proof.
  induction text as [|c text IH]; [reflexivity|].
  unfold escapeRegExp in *. cbn [flat_map].
  destruct (isEscapedClass c) eqn:Hc.
  - cbn [app literalOfPattern]. rewrite N.eqb_refl.
    by rewrite (isEscapedClass_identity c Hc), IH.
  - destruct (isEscapedClass_plain c Hc) as [H92 Hs].
    cbn [app literalOfPattern]. by rewrite H92, Hs, IH.
Qed.

(* ===================================================================== *)
(** ** A group that was just added *)
(* ===================================================================== *)

Lemma forOf_skip {X} (body : X → Eff unit) pre x post s :
  (∀ t, body x t = (Normal tt, t)) →
  forOf (pre ++ x :: post) body s = forOf (pre ++ post) body s.
Proof.
  intros Hskip. rewrite !forOf_app.
  destruct (forOf pre body s) as [[[]|] s1]; [|reflexivity].
  simpl. unfold bind. by rewrite Hskip.
Qed.

(** X19.  Clicking "Add header group" or "Add command group" changes
    nothing in what the events do: the group that is added has an empty
    field name, and for a document whose front matter has no truthy value
    under the empty key, a metadata change and an open event run as they
    did without it. *)
Theorem added_group_is_inert host settings file s :
  (∀ metadata, frontmatter host (path file) = Some metadata →
               truthy (getProp metadata []) = false) →
  onMetadataChanged host (addHeaderGroup settings) file s
  = onMetadataChanged host settings file s
  ∧ onMetadataChanged host (addCommandGroup settings) file s
    = onMetadataChanged host settings file s
  ∧ onFileOpen host (addHeaderGroup settings) file s
    = onFileOpen host settings file s
  ∧ onFileOpen host (addCommandGroup settings) file s
    = onFileOpen host settings file s.
Proof.
  intros Hfalsy. unfold onFileOpen, updateLastMetadataValues, onMetadataChanged.
  destruct (frontmatter host (path file)) as [metadata|]; [|by repeat split].
  specialize (Hfalsy metadata eq_refl).
  unfold addHeaderGroup, addCommandGroup, processHeaderGroups, processCommandGroups.
  cbn [headerGroups commandGroups]. repeat split.
  - unfold bind. rewrite forOf_skip, app_nil_r; [reflexivity|].
    intros t. unfold headerGroupStep. simpl. by rewrite Hfalsy.
  - unfold bind. destruct (forOf (headerGroups settings) _ s) as [[[]|] s1];
      [|reflexivity].
    rewrite forOf_skip, app_nil_r; [reflexivity|].
    intros t. unfold commandGroupStep. simpl. by rewrite Hfalsy.
  - rewrite fmap_app, <- app_assoc. simpl. rewrite forOf_skip; [reflexivity|].
    intros t. unfold seedGroup. simpl. by rewrite Hfalsy.
  - rewrite fmap_app, app_assoc. simpl. rewrite forOf_skip, app_nil_r; [reflexivity|].
    intros t. unfold seedGroup. simpl. by rewrite Hfalsy.
Qed.

Lemma added_group_is_inert_witness :
  onMetadataChanged (referenceHost (λ _, Some Sample.statusDraft))
    (addHeaderGroup Sample.headingAndReload) Sample.note Sample.statusNote
  = onMetadataChanged (referenceHost (λ _, Some Sample.statusDraft))
      Sample.headingAndReload Sample.note Sample.statusNote
  ∧ onMetadataChanged (referenceHost (λ _, Some Sample.statusDraft))
      (addCommandGroup Sample.headingAndReload) Sample.note Sample.statusNote
    = onMetadataChanged (referenceHost (λ _, Some Sample.statusDraft))
        Sample.headingAndReload Sample.note Sample.statusNote
  ∧ onFileOpen (referenceHost (λ _, Some Sample.statusDraft))
      (addHeaderGroup Sample.headingAndReload) Sample.note Sample.statusNote
    = onFileOpen (referenceHost (λ _, Some Sample.statusDraft))
        Sample.headingAndReload Sample.note Sample.statusNote
  ∧ onFileOpen (referenceHost (λ _, Some Sample.statusDraft))
      (addCommandGroup Sample.headingAndReload) Sample.note Sample.statusNote
    = onFileOpen (referenceHost (λ _, Some Sample.statusDraft))
        Sample.headingAndReload Sample.note Sample.statusNote.
Proof.
  apply (added_group_is_inert (referenceHost (λ _, Some Sample.statusDraft))
           Sample.headingAndReload Sample.note Sample.statusNote).
  intros metadata Hfm. injection Hfm as <-. reflexivity.
Defined.

(* ===================================================================== *)
(** ** Reactions to a change, and reactions that fail *)
(* ===================================================================== *)

(** An iteration of an active header group over a baseline that differs
    from the current value, when it returns, has read the document,
    rewritten it and written it back. *)
Lemma headerGroupStep_changed host file metadata g s s' :
  active g = true →
  truthy (getProp metadata (watchedField g)) = true →
  getProp (lastMetadataValues s) (cacheKey (path file) (watchedField g))
  ≠ getProp metadata (watchedField g) →
  headerGroupStep host file metadata g s = (Normal tt, s') →
  ∃ content updated,
    vault s !! path file = Some content
    ∧ replaceHeaderWithMetadataValue host content (header g)
        (getProp metadata (watchedField g)) = Some updated
    ∧ s' = {| lastMetadataValues :=
                <[cacheKey (path file) (watchedField g)
                    := getProp metadata (watchedField g)]> (lastMetadataValues s);
              vault := <[path file := updated]> (vault s);
              calls := calls s ++ [EvRead (path file); EvModify (path file) updated] |}.
Proof.
  intros Ha Ht Hne Hrun. unfold headerGroupStep in Hrun. rewrite Ha, Ht in Hrun.
  cbn [andb] in Hrun. unfold bind, getLast, strictEquals in Hrun.
  rewrite bool_decide_eq_false_2 in Hrun by congruence.
  cbn [negb] in Hrun. unfold vaultRead in Hrun.
  destruct (vault s !! path file) as [content|] eqn:Hfile; [|discriminate].
  unfold orThrow in Hrun.
  destruct (replaceHeaderWithMetadataValue host content (header g) _)
    as [updated|] eqn:Hrep; [|discriminate].
  unfold vaultModify in Hrun. destruct (modifyFails host (path file)); [discriminate|].
  unfold setLast, logCall in Hrun. cbn [lastMetadataValues vault calls] in Hrun.
  rewrite <- app_assoc in Hrun. inversion Hrun.
  exists content, updated. by repeat split.
Qed.

(** X20.  A header group reacts to every change of its field.  Take an
    active header group whose field is truthy and differs from the
    baseline, present or not, and that no earlier active header group
    watches.  A dispatch that returns has, at that group, read the
    document, rewritten it for the group's header and the new value,
    written the result back and stored the new value as baseline. *)
Theorem header_reacts_on_change host settings file metadata pre g post s s' :
  frontmatter host (path file) = Some metadata →
  headerGroups settings = pre ++ g :: post →
  (∀ g', g' ∈ pre → active g' = true → watchedField g' ≠ watchedField g) →
  active g = true →
  truthy (getProp metadata (watchedField g)) = true →
  getProp (lastMetadataValues s) (cacheKey (path file) (watchedField g))
  ≠ getProp metadata (watchedField g) →
  onMetadataChanged host settings file s = (Normal tt, s') →
  ∃ s1 content updated,
    forOf pre (headerGroupStep host file metadata) s = (Normal tt, s1)
    ∧ vault s1 !! path file = Some content
    ∧ replaceHeaderWithMetadataValue host content (header g)
        (getProp metadata (watchedField g)) = Some updated
    ∧ headerGroupStep host file metadata g s1
      = (Normal tt,
         {| lastMetadataValues :=
              <[cacheKey (path file) (watchedField g)
                  := getProp metadata (watchedField g)]> (lastMetadataValues s1);
            vault := <[path file := updated]> (vault s1);
            calls := calls s1 ++ [EvRead (path file); EvModify (path file) updated] |})
    ∧ lastMetadataValues s' !! cacheKey (path file) (watchedField g)
      = Some (getProp metadata (watchedField g)).
Proof.
  intros Hfm Hsplit Hfirst Ha Ht Hne Hrun.
  unfold onMetadataChanged in Hrun. rewrite Hfm in Hrun. unfold bind in Hrun.
  destruct (processHeaderGroups host settings file metadata s) as [[[]|] s0] eqn:Hpass;
    [|discriminate].
  unfold processHeaderGroups in Hpass. rewrite Hsplit in Hpass.
  apply forOf_normal_split in Hpass as (s1 & s2 & Hpre & Hg & Hpost).
  assert (Hkeep : lastMetadataValues s1 !! cacheKey (path file) (watchedField g)
                  = lastMetadataValues s !! cacheKey (path file) (watchedField g)).
  { eapply (loop_keepsEntry (headerGroupStep host file metadata) file metadata);
      [| exact Hfirst | exact Hpre].
    intros x t o t'. apply headerGroupStep_cacheStep. }
  assert (Hne1 : getProp (lastMetadataValues s1) (cacheKey (path file) (watchedField g))
                 ≠ getProp metadata (watchedField g)).
  { unfold getProp at 1. rewrite Hkeep. exact Hne. }
  destruct (headerGroupStep_changed _ _ _ _ _ _ Ha Ht Hne1 Hg)
    as (content & updated & Hfile & Hrep & Hs2).
  exists s1, content, updated. repeat split; try assumption.
  - by rewrite Hg, Hs2.
  - eapply commandLoop_staysCurrent; [exact Hrun|].
    eapply headerLoop_staysCurrent; [exact Hpost|].
    rewrite Hs2. simpl. apply lookup_insert_eq.
Qed.

Lemma header_reacts_on_change_witness :
  ∃ s1 content updated,
    forOf [] (headerGroupStep (referenceHost (λ _, Some Sample.statusFinal))
                Sample.note Sample.statusFinal)
      {| lastMetadataValues := lastMetadataValues Sample.seeded;
         vault := vault Sample.statusNote; calls := [] |}
    = (Normal tt, s1)
    ∧ vault s1 !! path Sample.note = Some content
    ∧ replaceHeaderWithMetadataValue (referenceHost (λ _, Some Sample.statusFinal))
        content (header Sample.statusHeading)
        (getProp Sample.statusFinal (watchedField Sample.statusHeading))
      = Some updated
    ∧ headerGroupStep (referenceHost (λ _, Some Sample.statusFinal)) Sample.note
        Sample.statusFinal Sample.statusHeading s1
      = (Normal tt,
         {| lastMetadataValues :=
              <[cacheKey (path Sample.note) (watchedField Sample.statusHeading)
                  := getProp Sample.statusFinal (watchedField Sample.statusHeading)]>
                (lastMetadataValues s1);
            vault := <[path Sample.note := updated]> (vault s1);
            calls := calls s1 ++ [EvRead (path Sample.note);
                                  EvModify (path Sample.note) updated] |})
    ∧ lastMetadataValues
        (snd (onMetadataChanged (referenceHost (λ _, Some Sample.statusFinal))
                Sample.onlyStatusHeading Sample.note
                {| lastMetadataValues := lastMetadataValues Sample.seeded;
                   vault := vault Sample.statusNote; calls := [] |}))
        !! cacheKey (path Sample.note) (watchedField Sample.statusHeading)
      = Some (getProp Sample.statusFinal (watchedField Sample.statusHeading)).
Proof.
  apply (header_reacts_on_change
           (referenceHost (λ _, Some Sample.statusFinal)) Sample.onlyStatusHeading
           Sample.note Sample.statusFinal [] Sample.statusHeading []
           {| lastMetadataValues := lastMetadataValues Sample.seeded;
              vault := vault Sample.statusNote; calls := [] |}).
  - reflexivity.
  - reflexivity.
  - intros g' Hg'. by apply not_elem_of_nil in Hg'.
  - reflexivity.
  - reflexivity.
  - vm_compute. discriminate.
  - vm_compute. reflexivity.
Defined.

(** X21.  A reaction that fails leaves the baseline and the documents as
    they were: when the iteration of a header group or of a command group
    throws, neither the cache nor the vault has changed, so the same
    difference is found again at the next metadata change. *)
Theorem failed_reaction_keeps_baseline host file metadata
    (hg : HeaderGroup) (cg : CommandGroup) s s' :
  headerGroupStep host file metadata hg s = (Throw, s')
  ∨ commandGroupStep host file metadata cg s = (Throw, s') →
  lastMetadataValues s' = lastMetadataValues s ∧ vault s' = vault s.
Proof.
  intros [Hrun|Hrun]; run_step; split_cases; by split.
Qed.

Lemma failed_reaction_keeps_baseline_witness :
  lastMetadataValues Sample.refused = lastMetadataValues Sample.statusNote
  ∧ vault Sample.refused = vault Sample.statusNote.
Proof.
  apply (failed_reaction_keeps_baseline
           (Sample.readOnlyHost (λ _, Some Sample.statusDraft)) Sample.note
           Sample.statusDraft Sample.statusHeading Sample.reloadOnStatus
           Sample.statusNote Sample.refused).
  left. vm_compute. reflexivity.
Defined.

Lemma forOf_throw_split {X} (body : X → Eff unit) xs s s' :
  forOf xs body s = (Throw, s') →
  ∃ pre x post s1,
    xs = pre ++ x :: post
    ∧ forOf pre body s = (Normal tt, s1)
    ∧ body x s1 = (Throw, s').
Proof.
  revert s. induction xs as [|x xs IH]; intros s Hrun; simpl in Hrun; [discriminate|].
  unfold bind in Hrun. destruct (body x s) as [[[]|] s1] eqn:Hx.
  - destruct (IH _ Hrun) as (pre & y & post & t & -> & Hpre & Hy).
    exists (x :: pre), y, post, t. repeat split; [|exact Hy].
    simpl. unfold bind. by rewrite Hx.
  - inversion Hrun; subst. by exists [], x, xs, s.
Qed.

Lemma headerGroupStep_throw host file metadata g s s' :
  headerGroupStep host file metadata g s = (Throw, s') →
  active g = true
  ∧ truthy (getProp metadata (watchedField g)) = true
  ∧ getProp (lastMetadataValues s') (cacheKey (path file) (watchedField g))
    ≠ getProp metadata (watchedField g).
Proof.
  intros Hrun. unfold strictEquals in *. run_step. split_cases.
  all: apply andb_prop in Heqb as [Ha Ht]; repeat split; try assumption.
  all: apply negb_true_iff, bool_decide_eq_false in Heqb0; congruence.
Qed.

Lemma commandGroupStep_throw host file metadata g s s' :
  commandGroupStep host file metadata g s = (Throw, s') →
  active g = true
  ∧ truthy (getProp metadata (watchedField g)) = true
  ∧ getProp (lastMetadataValues s') (cacheKey (path file) (watchedField g))
    ≠ getProp metadata (watchedField g).
Proof.
  intros Hrun. unfold strictEquals in *. run_step. split_cases.
  all: apply andb_prop in Heqb as [Ha Ht]; repeat split; try assumption.
  all: apply negb_true_iff, bool_decide_eq_false in Heqb0; congruence.
Qed.

(** X22.  A dispatch that fails is not lost: when the dispatch is
    rejected, the document has front matter and the baseline of the group
    whose reaction failed still differs from the snapshot, so the cache is
    not up to date and the next metadata change finds the difference
    again. *)
Theorem failed_dispatch_is_retried host settings file s s' :
  onMetadataChanged host settings file s = (Throw, s') →
  ∃ metadata, frontmatter host (path file) = Some metadata
              ∧ ¬ baselined settings file metadata s'.
Proof.
  intros Hrun. unfold onMetadataChanged in Hrun.
  destruct (frontmatter host (path file)) as [metadata|]; [|discriminate].
  exists metadata. split; [reflexivity|]. intros [Hh Hc].
  unfold bind in Hrun.
  destruct (processHeaderGroups host settings file metadata s) as [[[]|] s0] eqn:Hpass.
  - unfold processCommandGroups in Hrun.
    apply forOf_throw_split in Hrun as (pre & g & post & s1 & Hsplit & _ & Hg).
    destruct (commandGroupStep_throw _ _ _ _ _ _ Hg) as (Ha & Ht & Hne).
    apply Hne. unfold getProp at 1. rewrite (Hc g); [reflexivity | | exact Ha | exact Ht].
    rewrite Hsplit. apply elem_of_app. right. left.
  - inversion Hrun; subst. unfold processHeaderGroups in Hpass.
    apply forOf_throw_split in Hpass as (pre & g & post & s1 & Hsplit & _ & Hg).
    destruct (headerGroupStep_throw _ _ _ _ _ _ Hg) as (Ha & Ht & Hne).
    apply Hne. unfold getProp at 1. rewrite (Hh g); [reflexivity | | exact Ha | exact Ht].
    rewrite Hsplit. apply elem_of_app. right. left.
Qed.

Lemma failed_dispatch_is_retried_witness :
  ∃ metadata,
    frontmatter (Sample.readOnlyHost (λ _, Some Sample.statusAndDue))
      (path Sample.note) = Some metadata
    ∧ ¬ baselined Sample.twoHeadingsAndReload Sample.note metadata Sample.refused.
Proof.
  apply (failed_dispatch_is_retried
           (Sample.readOnlyHost (λ _, Some Sample.statusAndDue))
           Sample.twoHeadingsAndReload Sample.note Sample.statusNote Sample.refused).
  vm_compute. reflexivity.
Defined.

Lemma onMetadataChanged_returns_witness :
  ∃ s', onMetadataChanged (referenceHost (λ _, Some Sample.statusDraft))
          Sample.headingAndReload Sample.note Sample.statusNote = (Normal tt, s').
Proof.
  apply (onMetadataChanged_returns (referenceHost (λ _, Some Sample.statusDraft))
           Sample.headingAndReload Sample.note Sample.statusNote).
  - apply referenceHost_conforming.
  - intros g Hg. apply list_elem_of_singleton in Hg. subst g. reflexivity.
  - intros metadata g Hfm Hg _ _. injection Hfm as <-.
    apply list_elem_of_singleton in Hg. subst g. by eexists.
  - reflexivity.
  - reflexivity.
  - by eexists.
Defined.
